(** * TMDB Movie List: the trending counter and the movie card

    A shallow embedding of [src/lib/appwrite.ts] (the trending-counter
    client: [updateSearchCount], [getTrendingMovies]), of the [MovieCard]
    component and of the types of [types/MoviesType.ts], with the properties
    the specification states about them.

    Layout: the JavaScript primitives the code relies on (module [JS]), the
    data model, rendered output and the component, a small
    state-and-exception monad for the asynchronous client code, the SDK
    surface as a type class, the client functions, an in-memory document
    store standing for the hosted database, sample data, and then the
    theorems: the component first, the client against any environment
    next, the client against the document store last.  A second round
    follows the same order: the calls the client makes, runs one after
    the other and interleaved, the trending list as a ranking, and more of
    the card. *)

From Stdlib Require Import ZArith QArith Qround Qabs String Ascii List Lia Lqa.
From stdpp Require Import base list strings sorting infinite.

Local Open Scope Z_scope.

(** ** JavaScript primitives *)

Module JS.

(** *** Numbers

    A JavaScript number is an IEEE-754 double.  Identifiers and counters
    are integer-valued and are carried as [Z]; the one place where the
    code computes with them, [doc.count + 1], goes through [Number_add],
    which rounds the exact sum to the nearest double (ties to even).
    Magnitudes stay far below [2^1024], where a sum would become
    [Infinity]. *)

Definition round_double (z : Z) : Z :=
  let a := Z.abs z in
  if a <=? 2 ^ 53 then z
  else
    let e := Z.log2 a - 52 in
    let q := a / 2 ^ e in
    let r := a mod 2 ^ e in
    let half := 2 ^ (e - 1) in
    let q' := if r <? half then q
              else if half <? r then q + 1
              else if Z.even q then q else q + 1 in
    Z.sgn z * (q' * 2 ^ e).

Definition Number_add (a b : Z) : Z := round_double (a + b).

(** Numbers that need not be integers (a rating) carry their exact
    rational value, next to the three non-finite doubles. *)
Inductive number : Type :=
  | NaN
  | Infinity
  | NegInfinity
  | Finite (q : Q).

(** [ToBoolean] on a number: [0], [-0] and [NaN] are falsy. *)
Definition Number_truthy (x : number) : bool :=
  match x with
  | NaN => false
  | Infinity | NegInfinity => true
  | Finite q => negb (Qeq_bool q 0)
  end.

(** [ToBoolean] on a string: only the empty string is falsy. *)
Definition String_truthy (s : string) : bool :=
  match s with
  | EmptyString => false
  | String _ _ => true
  end.

(** [ToBoolean] on a value that may be [null] or [undefined] ([None]). *)
Definition truthy {A} (t : A → bool) (v : option A) : bool :=
  match v with
  | Some a => t a
  | None => false
  end.

(** *** Decimal numerals *)

Definition digit (d : N) : ascii := ascii_of_N (48 + d).

Fixpoint decimal_go (fuel : nat) (n : N) : string :=
  match fuel with
  | O => ""
  | S fuel' =>
      (if (n <? 10)%N then "" else decimal_go fuel' (n / 10))
        +:+ String (digit (n mod 10)) ""
  end.

(** The decimal digits of [n], most significant first; ["0"] for zero. *)
Definition decimal (n : N) : string :=
  decimal_go (S (N.to_nat (N.log2 n))) n.

Fixpoint zeros (k : nat) : string :=
  match k with
  | O => ""
  | S k' => String "0" (zeros k')
  end.

(** *** [Number::toString] at and above [10^21]

    A double of that size is an integer.  ECMAScript picks the least
    number of digits [k] for which some [k]-digit [s] and exponent [n]
    give [s * 10^(n-k)] rounding to [x], and among those the one nearest
    to [x]; since [n > 21] the result is in exponent notation. *)

Definition candidates (x d k : Z) : list (Z * Z) :=
  let lo := x / 10 ^ (d - k) in
  filter (λ ns : Z * Z,
            let (n, s) := ns in
            (10 ^ (k - 1) <=? s) && (s <? 10 ^ k)
            && (round_double (s * 10 ^ (n - k)) =? x))
         [(d, lo); (d, lo + 1); (d + 1, 10 ^ (k - 1))].

Definition nearest (x k : Z) (cs : list (Z * Z)) : option (Z * Z) :=
  let dist (ns : Z * Z) := Z.abs (snd ns * 10 ^ (fst ns - k) - x) in
  foldr (λ c best,
           match best with
           | Some b => if dist b <? dist c then Some b else Some c
           | None => Some c
           end) None cs.

Fixpoint shortest (x d : Z) (k : Z) (tries : nat) : Z * Z * Z :=
  match tries with
  | O => (d, d, x)
  | S tries' =>
      match nearest x k (candidates x d k) with
      | Some (n, s) => (n, k, s)
      | None => shortest x d (k + 1) tries'
      end
  end.

Definition Number_toString_large (x : Z) : string :=
  let d := Z.of_nat (String.length (decimal (Z.to_N x))) in
  let '(n, k, s) := shortest x d 1 21 in
  let ds := decimal (Z.to_N s) in
  let mantissa :=
    match ds with
    | String c EmptyString => ds
    | String c rest => String c ("." +:+ rest)
    | EmptyString => ds
    end in
  mantissa +:+ "e+" +:+ decimal (Z.to_N (n - 1)).

(** *** [Number.prototype.toFixed]

    For a finite [x] below [10^21] in magnitude: [n] is the integer
    nearest to [x * 10^f], the larger one on a tie; its digits are padded
    with zeros to [f + 1] places and the point goes before the last
    [f]. *)

Definition Q10 (f : nat) : Q := inject_Z (10 ^ Z.of_nat f).

Definition Number_toFixed (x : number) (fractionDigits : nat) : string :=
  match x with
  | NaN => "NaN"
  | Infinity => "Infinity"
  | NegInfinity => "-Infinity"
  | Finite q =>
      let f := fractionDigits in
      let s := if Qle_bool 0 q then "" else "-" in
      let x := Qabs q in
      if Qle_bool (Q10 21) x then s +:+ Number_toString_large (Qfloor x)
      else
        let n := Z.to_N (Qfloor (x * Q10 f + (1 # 2))) in
        let m := if (n =? 0)%N then "0" else decimal n in
        let m :=
          match f with
          | O => m
          | S _ =>
              let k := String.length m in
              let m := if (k <=? f)%nat then zeros (f + 1 - k) +:+ m else m in
              let k := String.length m in
              substring 0 (k - f) m +:+ "." +:+ substring (k - f) f m
          end in
        s +:+ m
  end.

(** *** Strings *)

(** [s.split(sep)] for a one-character separator. *)
Fixpoint String_split (sep : ascii) (s : string) : list string :=
  match s with
  | EmptyString => [EmptyString]
  | String c s' =>
      if Ascii.eqb c sep then EmptyString :: String_split sep s'
      else match String_split sep s' with
           | piece :: pieces => String c piece :: pieces
           | [] => [String c EmptyString]
           end
  end.

(** Whether the character [c] occurs in [s]. *)
Fixpoint String_includes (c : ascii) (s : string) : bool :=
  match s with
  | EmptyString => false
  | String x s' => Ascii.eqb x c || String_includes c s'
  end.

(** [ToString] inside a template literal, on a [string | null]. *)
Definition ToString (v : option string) : string :=
  match v with
  | Some s => s
  | None => "null"
  end.

End JS.

(** ** Data model ([types/MoviesType.ts]) *)

(** A film as the catalog API sends it.  The declared types are kept,
    with two fields widened to what the component guards against: a
    decoded record may lack [vote_average] or [release_date], so both are
    optional here ([None] is [undefined]); [poster_path] and
    [backdrop_path] are declared [string | null] ([None] is [null]). *)
Module Movie.
Record t : Type := {
  id : Z;
  title : string;
  adult : bool;
  backdrop_path : option string;
  genre_ids : list Z;
  original_language : string;
  original_title : string;
  overview : string;
  popularity : JS.number;
  poster_path : option string;
  release_date : option string;
  video : bool;
  vote_average : option JS.number;
  vote_count : Z;
}.
End Movie.

(** The display projection of a counter document. *)
Module TrendingMovies.
Record t : Type := {
  id : Z;
  count : Z;
  poster_url : string;
  searchTerm : string;
  title : string;
}.
End TrendingMovies.

(** A counter document as the database returns it: the identifier the
    database assigns ([$id]), the five attributes [getTrendingMovies]
    reads, and the field the update path writes. *)
Module Document.
Record t : Type := {
  _id : string;
  searchTerm : string;
  count : Z;
  movie_id : Z;
  poster_url : string;
  title : string;
  lastSearchedMovie : option Movie.t;
}.
End Document.

(** The object literal handed to [createDocument] or [updateDocument]: a
    partial document, [None] for a key the literal does not have. *)
Module Data.
Record t : Type := {
  searchTerm : option string;
  count : option Z;
  movie_id : option Z;
  poster_url : option string;
  title : option string;
  lastSearchedMovie : option Movie.t;
}.
End Data.

(** What [listDocuments] resolves to. *)
Record DocumentList : Type := {
  total : nat;
  documents : list Document.t;
}.

(** An attribute value inside a query. *)
Inductive value : Type :=
  | VString (s : string)
  | VNumber (n : Z).

(** The query builders the code uses. *)
Module Query.
Inductive t : Type :=
  | equal (attribute : string) (v : value)
  | orderDesc (attribute : string)
  | limit (n : nat).
End Query.

(** What a rejected promise carries. *)
Inductive exn : Type :=
  | AppwriteException (code : Z) (message : string)
  | NetworkError (message : string).

(** ** Rendered output *)

#[local] Set Warnings "-register-all".

(** A rendered JSX tree: host elements with string props, and text. *)
Inductive node : Type :=
  | Element (tag : string) (props : list (string * string))
            (children : list node)
  | Text (s : string).

Module Dom.

Definition tagName (n : node) : option string :=
  match n with
  | Element tag _ _ => Some tag
  | Text _ => None
  end.

Fixpoint assoc (key : string) (props : list (string * string))
  : option string :=
  match props with
  | [] => None
  | (k, v) :: rest => if String.eqb k key then Some v else assoc key rest
  end.

Definition getAttribute (key : string) (n : node) : option string :=
  match n with
  | Element _ props _ => assoc key props
  | Text _ => None
  end.

(** First node, in document order, that satisfies [p]. *)
Fixpoint find (p : node → bool) (n : node) : option node :=
  if p n then Some n
  else
    match n with
    | Element _ _ children =>
        (fix first (cs : list node) : option node :=
           match cs with
           | [] => None
           | c :: cs' =>
               match find p c with
               | Some r => Some r
               | None => first cs'
               end
           end) children
    | Text _ => None
    end.

Definition has_tag (tag : string) (n : node) : bool :=
  match tagName n with
  | Some t => String.eqb t tag
  | None => false
  end.

Definition has_class (cls : string) (n : node) : bool :=
  match getAttribute "className" n with
  | Some c => String.eqb c cls
  | None => false
  end.

Fixpoint textContent (n : node) : string :=
  match n with
  | Text s => s
  | Element _ _ children =>
      (fix all (cs : list node) : string :=
         match cs with
         | [] => ""
         | c :: cs' => textContent c +:+ all cs'
         end) children
  end.

End Dom.

(** ** The movie card (component [MovieCard]) *)

Definition poster_base : string := "https://image.tmdb.org/t/p/w500".

Section MovieCard.
Variable movie : Movie.t.

(** [poster_path ? `https://image.tmdb.org/t/p/w500${poster_path}`
                 : "/no-movie.png"] *)
Definition MovieCard_src : string :=
  if JS.truthy JS.String_truthy (Movie.poster_path movie)
  then poster_base +:+ JS.ToString (Movie.poster_path movie)
  else "/no-movie.png".

(** [vote_average ? vote_average.toFixed(1) : "N/A"] *)
Definition MovieCard_rating : string :=
  match Movie.vote_average movie with
  | Some v => if JS.Number_truthy v then JS.Number_toFixed v 1 else "N/A"
  | None => "N/A"
  end.

(** [release_date ? release_date.split("-")[0] : "N/A"]; an index past
    the end of the array would render nothing. *)
Definition MovieCard_year : string :=
  match Movie.release_date movie with
  | Some d =>
      if JS.String_truthy d
      then default "" (JS.String_split "-" d !! 0%nat)
      else "N/A"
  | None => "N/A"
  end.

Definition MovieCard : node :=
  Element "div" [("className", "movie-card")] [
    Element "img" [("src", MovieCard_src); ("alt", Movie.title movie)] [];
    Element "div" [("className", "mt-4")] [
      Element "h3" [] [Text (Movie.title movie)];
      Element "div" [("className", "content")] [
        Element "div" [("className", "rating")] [
          Element "img" [("src", "star.svg"); ("alt", "Star Icon")] [];
          Element "p" [] [Text MovieCard_rating]
        ];
        Element "span" [] [Text "•"];
        Element "p" [("className", "lang")]
          [Text (Movie.original_language movie)];
        Element "span" [] [Text "•"];
        Element "p" [("className", "year")] [Text MovieCard_year]
      ]
    ]
  ].
End MovieCard.

(** What the card shows, read off the rendered tree. *)
Definition rendered_src (card : node) : option string :=
  Dom.find (Dom.has_tag "img") card ≫= Dom.getAttribute "src".

Definition rendered_rating (card : node) : option string :=
  Dom.textContent <$> Dom.find (Dom.has_class "rating") card.

Definition rendered_year (card : node) : option string :=
  Dom.textContent <$> Dom.find (Dom.has_class "year") card.

(** ** Asynchronous client code: state and exceptions

    An [async] function is run to completion against a world: the
    environment the SDK talks to, and the diagnostic channel
    ([console.error]).  It either returns or throws; [await] on a rejected
    promise throws. *)

Inductive completion (A : Type) : Type :=
  | Return (a : A)
  | Throw (e : exn).
Arguments Return {A} a.
Arguments Throw {A} e.

Record World (R : Type) : Type := {
  remote : R;
  console : list (string * exn);
}.
Arguments remote {R} w.
Arguments console {R} w.
Arguments Build_World {R} remote console.

Definition Async (R A : Type) : Type := World R → completion A * World R.

Definition ret {R A} (a : A) : Async R A := λ w, (Return a, w).

Definition bind {R A B} (m : Async R A) (k : A → Async R B) : Async R B :=
  λ w, match m w with
       | (Return a, w') => k a w'
       | (Throw e, w') => (Throw e, w')
       end.

Notation "'let*' x := m 'in' k" := (bind m (λ x, k))
  (at level 10, x name, m at level 100, k at level 200, only parsing).
Notation "m ;;; k" := (bind m (λ _, k))
  (at level 100, k at level 200, right associativity, only parsing).

(** [try { body } catch (error) { handler }] *)
Definition try_catch {R A} (body : Async R A) (handler : exn → Async R A)
  : Async R A :=
  λ w, match body w with
       | (Return a, w') => (Return a, w')
       | (Throw e, w') => handler e w'
       end.

(** [await] on a call of the SDK. *)
Definition await {R A} (call : R → completion A * R) : Async R A :=
  λ w, let (c, r) := call (remote w) in
       (c, {| remote := r; console := console w |}).

(** A synchronous call that cannot throw. *)
Definition lift {R A} (call : R → A * R) : Async R A :=
  λ w, let (a, r) := call (remote w) in
       (Return a, {| remote := r; console := console w |}).

(** [console.error(label, error)] *)
Definition console_error {R} (label : string) (error : exn) : Async R unit :=
  λ w, (Return tt,
        {| remote := remote w; console := console w ++ [(label, error)] |}).

(** ** The SDK surface the client consumes

    [databases.listDocuments], [databases.updateDocument],
    [databases.createDocument] and [ID.unique] of the [appwrite] package,
    over an environment [R].  The three calls take the database and
    collection identifiers first; each may resolve or reject. *)
Class Appwrite (R : Type) : Type := {
  listDocuments :
    string → string → list Query.t → R → completion DocumentList * R;
  updateDocument :
    string → string → string → Data.t → R → completion Document.t * R;
  createDocument :
    string → string → string → Data.t → R → completion Document.t * R;
  ID_unique : R → string * R;
}.

(** ** The client ([src/lib/appwrite.ts]) *)

Section Client.
Context {R : Type} {sdk : Appwrite R}.
(** [import.meta.env.VITE_APPWRITE_DATABASE_ID] and
    [..._COLLECTION_ID] *)
Variables DATABASE_ID COLLECTION_ID : string.

(** The object literal of the update path:
    [{ count: doc.count + 1, lastSearchedMovie: movie }]. *)
Definition update_data (doc : Document.t) (movie : Movie.t) : Data.t :=
  {| Data.searchTerm := None;
     Data.count := Some (JS.Number_add (Document.count doc) 1);
     Data.movie_id := None;
     Data.poster_url := None;
     Data.title := None;
     Data.lastSearchedMovie := Some movie |}.

(** The object literal of the create path. *)
Definition create_data (searchTerm : string) (movie : Movie.t) : Data.t :=
  {| Data.searchTerm := Some searchTerm;
     Data.count := Some 1;
     Data.movie_id := Some (Movie.id movie);
     Data.poster_url :=
       Some (poster_base +:+ JS.ToString (Movie.poster_path movie));
     Data.title := Some (Movie.title movie);
     Data.lastSearchedMovie := None |}.

(** The [try] block of [updateSearchCount]. *)
Definition updateSearchCount_try (searchTerm : string) (movie : Movie.t)
  : Async R unit :=
  let* result := await (listDocuments DATABASE_ID COLLECTION_ID
                          [Query.equal "searchTerm" (VString searchTerm)]) in
  match documents result with
  | doc :: _ =>
      await (updateDocument DATABASE_ID COLLECTION_ID (Document._id doc)
               (update_data doc movie)) ;;;
      ret tt
  | [] =>
      let* unique := lift ID_unique in
      await (createDocument DATABASE_ID COLLECTION_ID unique
               (create_data searchTerm movie)) ;;;
      ret tt
  end.

Definition updateSearchCount (searchTerm : string) (movie : Movie.t)
  : Async R unit :=
  try_catch (updateSearchCount_try searchTerm movie)
            (λ error, console_error "Error updating search count:" error).

(** The arrow function handed to [result.documents.map]. *)
Definition to_trending (doc : Document.t) : TrendingMovies.t :=
  {| TrendingMovies.id := Document.movie_id doc;
     TrendingMovies.count := Document.count doc;
     TrendingMovies.poster_url := Document.poster_url doc;
     TrendingMovies.searchTerm := Document.searchTerm doc;
     TrendingMovies.title := Document.title doc |}.

(** The [try] block of [getTrendingMovies]. *)
Definition getTrendingMovies_try : Async R (list TrendingMovies.t) :=
  let* result := await (listDocuments DATABASE_ID COLLECTION_ID
                          [Query.orderDesc "count"; Query.limit 5]) in
  let movies := map to_trending (documents result) in
  ret movies.

Definition getTrendingMovies : Async R (list TrendingMovies.t) :=
  try_catch getTrendingMovies_try
            (λ error,
               console_error "Error fetching trending movies:" error ;;;
               ret []).
End Client.

(** What the last SDK call of [updateSearchCount] leaves of a run: the
    value [tt] either way, and the exception, if any, on the diagnostic
    channel. *)
Definition settle {R A} (w : World R) (outcome : completion A * R)
  : completion unit * World R :=
  match outcome with
  | (Return _, r) => (Return tt, {| remote := r; console := console w |})
  | (Throw e, r) =>
      (Return tt,
       {| remote := r;
          console := console w ++ [("Error updating search count:", e)] |})
  end.

(** ** The hosted document database *)

Module Store.

(** Modelled from the spec: the hosted document database is not part of
    the repository; the specification gives what the client consumes of
    it (section 6: list documents filtered and sorted by field, create
    and update a document by id) and the collection's attributes (section
    3).  The collection is the list of its documents in insertion order.
    A listing keeps the documents that satisfy every [equal] query, sorts
    them by the [orderDesc] attributes and returns the first [limit] of
    them, 25 when no limit is given.  An update merges the given keys
    into the document that carries the id, a creation appends a document;
    unknown attributes, an unknown id on update, a known id on creation
    and a creation without a required attribute are rejected. *)
Abbreviation t := (list Document.t).

Definition attribute (name : string) (d : Document.t) : option value :=
  match name with
  | "$id" => Some (VString (Document._id d))
  | "searchTerm" => Some (VString (Document.searchTerm d))
  | "count" => Some (VNumber (Document.count d))
  | "movie_id" => Some (VNumber (Document.movie_id d))
  | "poster_url" => Some (VString (Document.poster_url d))
  | "title" => Some (VString (Document.title d))
  | _ => None
  end%string.

Definition value_eqb (a b : value) : bool :=
  match a, b with
  | VString x, VString y => String.eqb x y
  | VNumber x, VNumber y => x =? y
  | _, _ => false
  end.

Definition value_compare (a b : value) : comparison :=
  match a, b with
  | VNumber x, VNumber y => x ?= y
  | VString x, VString y => String.compare x y
  | VNumber _, VString _ => Lt
  | VString _, VNumber _ => Gt
  end.

(** The attribute a query names, if it names one. *)
Definition query_attribute (q : Query.t) : option string :=
  match q with
  | Query.equal a _ | Query.orderDesc a => Some a
  | Query.limit _ => None
  end.

Definition known (name : string) : bool :=
  bool_decide (name ∈ ["$id"; "searchTerm"; "count"; "movie_id";
                       "poster_url"; "title"]%string).

Definition valid (q : Query.t) : bool :=
  match query_attribute q with
  | Some a => known a
  | None => true
  end.

Definition satisfies (d : Document.t) (q : Query.t) : bool :=
  match q with
  | Query.equal a v =>
      match attribute a d with
      | Some w => value_eqb w v
      | None => false
      end
  | _ => true
  end.

Definition order_attributes (qs : list Query.t) : list string :=
  omap (λ q, match q with Query.orderDesc a => Some a | _ => None end) qs.

Definition default_limit : nat := 25.

Definition limits (qs : list Query.t) : list nat :=
  omap (λ q, match q with Query.limit n => Some n | _ => None end) qs.

Definition page_size (qs : list Query.t) : nat :=
  default default_limit (last (limits qs)).

(** [d1] may come before [d2] when sorting in descending order of the
    attributes [attrs], the first one most significant. *)
Fixpoint desc_leb (attrs : list string) (d1 d2 : Document.t) : bool :=
  match attrs with
  | [] => true
  | a :: rest =>
      match attribute a d1, attribute a d2 with
      | Some v1, Some v2 =>
          match value_compare v1 v2 with
          | Gt => true
          | Lt => false
          | Eq => desc_leb rest d1 d2
          end
      | _, _ => true
      end
  end.

Definition desc (attrs : list string) : relation Document.t :=
  λ d1 d2, Is_true (desc_leb attrs d1 d2).

Definition sorted (attrs : list string) (ds : list Document.t)
  : list Document.t :=
  match attrs with
  | [] => ds
  | _ => merge_sort (desc attrs) ds
  end.

(** Modelled from the spec: [listDocuments] of the hosted database, on
    the one collection the client addresses. *)
Definition list_documents (qs : list Query.t) (s : t)
  : completion DocumentList * t :=
  if forallb valid qs then
    let matching := filter (λ d, Is_true (forallb (satisfies d) qs)) s in
    (Return {| total := length matching;
               documents := take (page_size qs)
                              (sorted (order_attributes qs) matching) |}, s)
  else (Throw (AppwriteException 400 "Attribute not found in schema"), s).

(** The document [d] with the keys of [data] written over it. *)
Definition merge (data : Data.t) (d : Document.t) : Document.t :=
  {| Document._id := Document._id d;
     Document.searchTerm :=
       default (Document.searchTerm d) (Data.searchTerm data);
     Document.count := default (Document.count d) (Data.count data);
     Document.movie_id := default (Document.movie_id d) (Data.movie_id data);
     Document.poster_url :=
       default (Document.poster_url d) (Data.poster_url data);
     Document.title := default (Document.title d) (Data.title data);
     Document.lastSearchedMovie :=
       match Data.lastSearchedMovie data with
       | Some m => Some m
       | None => Document.lastSearchedMovie d
       end |}.

Definition ids (s : t) : list string := map Document._id s.

(** Modelled from the spec: [updateDocument] of the hosted database. *)
Definition update_document (i : string) (data : Data.t) (s : t)
  : completion Document.t * t :=
  match list_find (λ d, Document._id d = i) s with
  | Some (_, d) =>
      (Return (merge data d),
       map (λ d', if decide (Document._id d' = i) then merge data d'
                  else d') s)
  | None => (Throw (AppwriteException 404 "Document not found"), s)
  end.

(** A new document from a complete set of required attributes. *)
Definition fresh_document (i : string) (data : Data.t) : option Document.t :=
  match Data.searchTerm data, Data.count data, Data.movie_id data,
        Data.poster_url data, Data.title data with
  | Some st, Some c, Some m, Some p, Some ti =>
      Some {| Document._id := i;
              Document.searchTerm := st;
              Document.count := c;
              Document.movie_id := m;
              Document.poster_url := p;
              Document.title := ti;
              Document.lastSearchedMovie := Data.lastSearchedMovie data |}
  | _, _, _, _, _ => None
  end.

(** Modelled from the spec: [createDocument] of the hosted database. *)
Definition create_document (i : string) (data : Data.t) (s : t)
  : completion Document.t * t :=
  if bool_decide (i ∈ ids s) then
    (Throw (AppwriteException 409 "Document already exists"), s)
  else
    match fresh_document i data with
    | Some d => (Return d, s ++ [d])
    | None => (Throw (AppwriteException 400 "Invalid document structure"), s)
    end.

Section Sdk.
(** [ID.unique()] yields an identifier that no stored document carries;
    which one is left open. *)
Variable unique : list string → string.

Definition sdk : Appwrite t :=
  {| listDocuments := λ _ _ qs s, list_documents qs s;
     updateDocument := λ _ _ i data s, update_document i data s;
     createDocument := λ _ _ i data s, create_document i data s;
     ID_unique := λ s, (unique (ids s), s) |}.
End Sdk.

End Store.

(** An environment in which every call is rejected. *)
Module Offline.
Definition failure : exn := NetworkError "Failed to fetch".

Definition sdk : Appwrite unit :=
  {| listDocuments := λ _ _ _ r, (Throw failure, r);
     updateDocument := λ _ _ _ _ r, (Throw failure, r);
     createDocument := λ _ _ _ _ r, (Throw failure, r);
     ID_unique := λ r, ("unique()", r) |}.
End Offline.

(** ** Sample data *)

(** A film with the given poster path, release date and rating. *)
Definition film (poster date : option string) (vote : option JS.number)
  : Movie.t :=
  {| Movie.id := 603;
     Movie.title := "The Matrix";
     Movie.adult := false;
     Movie.backdrop_path := None;
     Movie.genre_ids := [28; 878];
     Movie.original_language := "en";
     Movie.original_title := "The Matrix";
     Movie.overview := "A hacker learns what the world is.";
     Movie.popularity := JS.Finite (85 # 1);
     Movie.poster_path := poster;
     Movie.release_date := date;
     Movie.video := false;
     Movie.vote_average := vote;
     Movie.vote_count := 26000 |}.

Definition the_matrix : Movie.t :=
  film (Some "/matrix.jpg") (Some "1999-03-30") (Some (JS.Finite (82 # 10))).

Definition the_matrix_without_poster : Movie.t :=
  film None (Some "1999-03-30") (Some (JS.Finite (82 # 10))).

(** A stored counter for the term ["matrix"], searched [c] times. *)
Definition searched (c : Z) : Document.t :=
  {| Document._id := "64f0c1";
     Document.searchTerm := "matrix";
     Document.count := c;
     Document.movie_id := 603;
     Document.poster_url := "https://image.tmdb.org/t/p/w500/matrix.jpg";
     Document.title := "The Matrix";
     Document.lastSearchedMovie := None |}.

Definition world_of (s : Store.t) : World Store.t :=
  {| remote := s; console := [] |}.

(** An identifier source for the examples: the first unused numeral. *)
Definition next_id (used : list string) : string := fresh used.

(** ** What the specification asks of a run *)

(** The document the create path is to store under the identifier [i]. *)
Definition counter_document (i term : string) (movie : Movie.t)
  : Document.t :=
  {| Document._id := i;
     Document.searchTerm := term;
     Document.count := 1;
     Document.movie_id := Movie.id movie;
     Document.poster_url :=
       poster_base +:+ JS.ToString (Movie.poster_path movie);
     Document.title := Movie.title movie;
     Document.lastSearchedMovie := None |}.

(** Going from the collection [before] to [after], the one document [d]
    of the term had its count raised by exactly 1 and no document was
    added. *)
Definition count_incremented (term : string) (d : Document.t)
    (before after : Store.t) : Prop :=
  length after = length before
  ∧ ∃ d', filter (λ x, Document.searchTerm x = term) after = [d']
          ∧ Document._id d' = Document._id d
          ∧ Document.count d' = Document.count d + 1.

(** [s] is the rating [q] rounded to one decimal place: the sign, the
    digits of a whole part, a point and one digit, together a number
    within half a tenth of [q]. *)
Definition one_decimal (q : Q) (s : string) : Prop :=
  ∃ n : N,
    s = (if Qle_bool 0 q then "" else "-")
        +:+ JS.decimal (n / 10) +:+ "." +:+ String (JS.digit (n mod 10)) ""
    ∧ (Qabs (inject_Z (Z.of_N n) / 10 - Qabs q) <= 1 # 20)%Q.

(** ** Runs of the client: one after the other, and interleaved *)

Section Runs.
Context {R : Type} {sdk : Appwrite R}.
Variables DATABASE_ID COLLECTION_ID : string.

(** A session that awaits each [updateSearchCount] before the next:
    the searches of [session], in order. *)
Definition search_session (session : list (string * Movie.t)) (w : World R)
  : World R :=
  fold_left
    (λ w' search,
       snd (updateSearchCount DATABASE_ID COLLECTION_ID
              (fst search) (snd search) w'))
    session w.

(** [updateSearchCount] up to its first [await]: the listing is sent and
    answered. *)
Definition updateSearchCount_listing (searchTerm : string)
  : World R → completion DocumentList * World R :=
  await (listDocuments DATABASE_ID COLLECTION_ID
           [Query.equal "searchTerm" (VString searchTerm)]).

(** [updateSearchCount] from its first [await] on, once the listing has
    settled as [listed]: the rest of the [try] block, and the [catch]. *)
Definition updateSearchCount_resume (searchTerm : string) (movie : Movie.t)
    (listed : completion DocumentList) : Async R unit :=
  try_catch
    (match listed with
     | Return result =>
         match documents result with
         | doc :: _ =>
             await (updateDocument DATABASE_ID COLLECTION_ID
                      (Document._id doc) (update_data doc movie)) ;;;
             ret tt
         | [] =>
             let* unique := lift ID_unique in
             await (createDocument DATABASE_ID COLLECTION_ID unique
                      (create_data searchTerm movie)) ;;;
             ret tt
         end
     | Throw e => λ w, (Throw e, w)
     end)
    (λ error, console_error "Error updating search count:" error).

(** Two calls of [updateSearchCount] that are not awaited one after the
    other, in the schedule where both listings are answered before
    either call resumes; the first call then writes before the second. *)
Definition interleaved (termA : string) (movieA : Movie.t)
    (termB : string) (movieB : Movie.t) (w : World R) : World R :=
  let (listedA, w1) := updateSearchCount_listing termA w in
  let (listedB, w2) := updateSearchCount_listing termB w1 in
  let w3 := snd (updateSearchCount_resume termA movieA listedA w2) in
  snd (updateSearchCount_resume termB movieB listedB w3).
End Runs.

(** ** Recording the calls *)

(** A call of the SDK with its arguments. *)
Inductive call : Type :=
  | ListDocuments (database collection : string) (queries : list Query.t)
  | UpdateDocument (database collection id : string) (data : Data.t)
  | CreateDocument (database collection id : string) (data : Data.t)
  | Unique.

(** Any environment, with every call appended to a record as it is
    made; the calls behave as in the environment itself. *)
Module Traced.
Definition sdk {R} (inner : Appwrite R) : Appwrite (R * list call) :=
  {| listDocuments := λ db coll qs s,
       let (c, r) := @listDocuments R inner db coll qs (fst s) in
       (c, (r, snd s ++ [ListDocuments db coll qs]));
     updateDocument := λ db coll i data s,
       let (c, r) := @updateDocument R inner db coll i data (fst s) in
       (c, (r, snd s ++ [UpdateDocument db coll i data]));
     createDocument := λ db coll i data s,
       let (c, r) := @createDocument R inner db coll i data (fst s) in
       (c, (r, snd s ++ [CreateDocument db coll i data]));
     ID_unique := λ s,
       let (i, r) := @ID_unique R inner (fst s) in
       (i, (r, snd s ++ [Unique])) |}.
End Traced.

(** ** More sample data *)

Definition inception : Movie.t :=
  {| Movie.id := 27205;
     Movie.title := "Inception";
     Movie.adult := false;
     Movie.backdrop_path := Some "/inception-wide.jpg";
     Movie.genre_ids := [28; 878; 12];
     Movie.original_language := "en";
     Movie.original_title := "Inception";
     Movie.overview := "A thief enters dreams.";
     Movie.popularity := JS.Finite (90 # 1);
     Movie.poster_path := Some "/inception.jpg";
     Movie.release_date := Some "2010-07-15";
     Movie.video := false;
     Movie.vote_average := Some (JS.Finite (8369 # 1000));
     Movie.vote_count := 37000 |}.

(** A stored counter under the identifier [i] for the term [term]. *)
Definition counter (i term : string) (c : Z) : Document.t :=
  {| Document._id := i;
     Document.searchTerm := term;
     Document.count := c;
     Document.movie_id := 603;
     Document.poster_url := "https://image.tmdb.org/t/p/w500/matrix.jpg";
     Document.title := "The Matrix";
     Document.lastSearchedMovie := None |}.

(** ** More of what a run may be asked *)

(** At most one document per search term. *)
Definition one_per_term (s : Store.t) : Prop :=
  ∀ term, (length (filter (λ d, Document.searchTerm d = term) s) ≤ 1)%nat.

(** The numeral of [n] tenths: the whole part, a point, one digit. *)
Definition tenths (n : N) : string :=
  JS.decimal (n / 10) +:+ "." +:+ String (JS.digit (n mod 10)) "".

(** ** Strings: auxiliary facts *)

Lemma append_nil_l (s : string) : "" +:+ s = s.
Proof. reflexivity. Qed.

Lemma append_cons (c : ascii) (a b : string) :
  String c a +:+ b = String c (a +:+ b).
Proof. reflexivity. Qed.

Ltac string_simpl := rewrite ?append_cons, ?append_nil_l in *.

Lemma append_empty_r (s : string) : s +:+ "" = s.
Proof.
  induction s as [|c s IH]; string_simpl; [reflexivity | now rewrite IH].
Qed.

Lemma append_assoc (a b c : string) : (a +:+ b) +:+ c = a +:+ (b +:+ c).
Proof.
  induction a as [|x a IH]; string_simpl; [reflexivity | now rewrite IH].
Qed.

Lemma length_append (a b : string) :
  String.length (a +:+ b) = (String.length a + String.length b)%nat.
Proof.
  induction a as [|x a IH]; string_simpl; simpl; [reflexivity | now rewrite IH].
Qed.

(** Two strings that end in tails of the same length have the same tail. *)
Lemma append_tail_inj (a b s t : string) :
  String.length s = String.length t → a +:+ s = b +:+ t → s = t.
Proof.
  intros Hlen. revert b.
  induction a as [|x a IH]; intros [|y b] Heq; string_simpl.
  - exact Heq.
  - apply (f_equal String.length) in Heq. simpl in Heq.
    rewrite length_append in Heq. lia.
  - apply (f_equal String.length) in Heq. simpl in Heq.
    rewrite length_append in Heq. lia.
  - injection Heq as _ Heq. eauto.
Qed.

(** ** The primitives on examples *)

Example toFixed_8_25 : JS.Number_toFixed (JS.Finite (825 # 100)) 1 = "8.3".
Proof. reflexivity. Qed.

Example toFixed_7_345 :
  JS.Number_toFixed (JS.Finite (7345 # 1000)) 1 = "7.3".
Proof. reflexivity. Qed.

Example toFixed_small_negative :
  JS.Number_toFixed (JS.Finite (- 4 # 100)) 1 = "-0.0".
Proof. reflexivity. Qed.

Example toFixed_ten : JS.Number_toFixed (JS.Finite (10 # 1)) 1 = "10.0".
Proof. reflexivity. Qed.

Example toFixed_two_places :
  JS.Number_toFixed (JS.Finite (5 # 1000)) 2 = "0.01".
Proof. reflexivity. Qed.

Example toFixed_NaN : JS.Number_toFixed JS.NaN 1 = "NaN".
Proof. reflexivity. Qed.

Example toString_2_pow_70 :
  JS.Number_toString_large (2 ^ 70) = "1.1805916207174113e+21".
Proof. vm_compute. reflexivity. Qed.

Example toString_1e23 :
  JS.Number_toString_large (JS.round_double (10 ^ 23)) = "1e+23".
Proof. vm_compute. reflexivity. Qed.

Example add_below_limit : JS.Number_add (2 ^ 53 - 1) 1 = 2 ^ 53.
Proof. reflexivity. Qed.

Example add_at_limit : JS.Number_add (2 ^ 53) 1 = 2 ^ 53.
Proof. reflexivity. Qed.

Example add_above_limit : JS.Number_add (2 ^ 53 + 2) 1 = 2 ^ 53 + 4.
Proof. reflexivity. Qed.

Example split_date :
  JS.String_split "-" "2021-05-04" = ["2021"; "05"; "04"].
Proof. reflexivity. Qed.

Example split_empty : JS.String_split "-" "" = [""].
Proof. reflexivity. Qed.

Example split_edges : JS.String_split "-" "-a-" = [""; "a"; ""].
Proof. reflexivity. Qed.

Example card_of_the_matrix :
  (rendered_src (MovieCard the_matrix),
   rendered_rating (MovieCard the_matrix),
   rendered_year (MovieCard the_matrix))
  = (Some "https://image.tmdb.org/t/p/w500/matrix.jpg",
     Some "8.2", Some "1999").
Proof. vm_compute. reflexivity. Qed.

(** Two searches for a new term, then the trending list. *)
Example two_searches :
  let run := updateSearchCount (sdk := Store.sdk next_id) "db" "searches"
               "matrix" the_matrix in
  let w := snd (run (snd (run (world_of [])))) in
  map (λ d, (Document._id d, Document.count d)) (remote w) = [("0", 2)]
  ∧ console w = []
  ∧ fst (getTrendingMovies (sdk := Store.sdk next_id) "db" "searches" w)
    = Return [{| TrendingMovies.id := 603;
                 TrendingMovies.count := 2;
                 TrendingMovies.poster_url :=
                   "https://image.tmdb.org/t/p/w500/matrix.jpg";
                 TrendingMovies.searchTerm := "matrix";
                 TrendingMovies.title := "The Matrix" |}].
Proof. vm_compute. repeat split. Qed.

(** With the database out of reach both functions return normally. *)
Example offline_runs :
  updateSearchCount (sdk := Offline.sdk) "db" "searches" "matrix"
    the_matrix {| remote := tt; console := [] |}
  = (Return tt,
     {| remote := tt;
        console := [("Error updating search count:", Offline.failure)] |}).
Proof. reflexivity. Qed.

(** ** The movie card *)

Section MovieCardFacts.
Variable movie : Movie.t.

Lemma rendered_src_MovieCard :
  rendered_src (MovieCard movie) = Some (MovieCard_src movie).
Proof. reflexivity. Qed.

Lemma rendered_rating_MovieCard :
  rendered_rating (MovieCard movie) = Some (MovieCard_rating movie).
Proof.
  unfold rendered_rating, MovieCard. generalize (MovieCard_rating movie) as r.
  intros r. cbn. now rewrite !append_empty_r.
Qed.

Lemma rendered_year_MovieCard :
  rendered_year (MovieCard movie) = Some (MovieCard_year movie).
Proof.
  unfold rendered_year, MovieCard. generalize (MovieCard_year movie) as y.
  intros y. cbn. now rewrite !append_empty_r.
Qed.
End MovieCardFacts.

(** The first piece of a split is what precedes the first separator. *)
Lemma String_split_first (sep : ascii) (y rest : string) :
  JS.String_includes sep y = false →
  JS.String_split sep (y +:+ String sep rest) !! 0%nat = Some y.
Proof.
  induction y as [|c y IH]; string_simpl; simpl; intros Hy.
  - now rewrite Ascii.eqb_refl.
  - destruct (Ascii.eqb c sep) eqn:E; [discriminate |].
    specialize (IH Hy).
    destruct (JS.String_split sep (y +:+ String sep rest)) as [|p ps];
      simpl in *; congruence.
Qed.

Lemma String_split_whole (sep : ascii) (y : string) :
  JS.String_includes sep y = false → JS.String_split sep y = [y].
Proof.
  induction y as [|c y IH]; simpl; intros Hy; [reflexivity |].
  destruct (Ascii.eqb c sep); [discriminate |]. now rewrite IH.
Qed.

(** C8. A movie whose poster path is null is rendered with the
    placeholder image source ["/no-movie.png"]; a movie whose poster path
    is a non-empty string is rendered with
    ["https://image.tmdb.org/t/p/w500"] followed by that path. *)
Theorem MovieCard_poster (movie : Movie.t) :
  (Movie.poster_path movie = None →
   rendered_src (MovieCard movie) = Some "/no-movie.png")
  ∧ (∀ p, Movie.poster_path movie = Some p → p ≠ "" →
          rendered_src (MovieCard movie)
          = Some ("https://image.tmdb.org/t/p/w500" +:+ p)).
Proof.
  rewrite rendered_src_MovieCard. unfold MovieCard_src. split.
  - intros ->. reflexivity.
  - intros p -> Hp. destruct p; [congruence | reflexivity].
Qed.

Lemma MovieCard_poster_witness :
  (Movie.poster_path (film None None None) = None
   ∧ rendered_src (MovieCard (film None None None)) = Some "/no-movie.png")
  ∧ (Movie.poster_path the_matrix = Some "/matrix.jpg"
     ∧ "/matrix.jpg" ≠ ""
     ∧ rendered_src (MovieCard the_matrix)
       = Some "https://image.tmdb.org/t/p/w500/matrix.jpg").
Proof.
  split.
  - split; [reflexivity |].
    exact (proj1 (MovieCard_poster (film None None None)) eq_refl).
  - split; [reflexivity |]. split; [discriminate |].
    exact (proj2 (MovieCard_poster the_matrix) "/matrix.jpg" eq_refl
             ltac:(discriminate)).
Defined.

(** C9. For a release date made of a first piece, a dash and more (such
    as ["2021-05-04"]), the card shows the piece before the first dash as
    the year (["2021"]); for an empty or absent release date it shows
    ["N/A"]. *)
Theorem MovieCard_release_year (movie : Movie.t) :
  (∀ y rest, Movie.release_date movie = Some (y +:+ "-" +:+ rest) →
             JS.String_includes "-" y = false →
             rendered_year (MovieCard movie) = Some y)
  ∧ (Movie.release_date movie = Some "2021-05-04" →
     rendered_year (MovieCard movie) = Some "2021")
  ∧ (Movie.release_date movie = Some "" ∨ Movie.release_date movie = None →
     rendered_year (MovieCard movie) = Some "N/A").
Proof.
  rewrite rendered_year_MovieCard. unfold MovieCard_year.
  split; [|split].
  - intros y rest -> Hy.
    assert (JS.String_truthy (y +:+ "-" +:+ rest) = true) as ->
      by (destruct y; reflexivity).
    change ("-" +:+ rest) with (String "-" rest).
    now rewrite String_split_first.
  - intros ->. reflexivity.
  - intros [-> | ->]; reflexivity.
Qed.

Lemma MovieCard_release_year_witness :
  (Movie.release_date the_matrix = Some ("1999" +:+ "-" +:+ "03-30")
   ∧ JS.String_includes "-" "1999" = false
   ∧ rendered_year (MovieCard the_matrix) = Some "1999")
  ∧ (Movie.release_date (film None (Some "2021-05-04") None)
     = Some "2021-05-04"
     ∧ rendered_year (MovieCard (film None (Some "2021-05-04") None))
       = Some "2021")
  ∧ ((Movie.release_date (film None (Some "") None) = Some ""
      ∨ Movie.release_date (film None (Some "") None) = None)
     ∧ rendered_year (MovieCard (film None (Some "") None)) = Some "N/A").
Proof.
  split; [|split].
  - split; [reflexivity |]. split; [reflexivity |].
    exact (proj1 (MovieCard_release_year the_matrix) "1999" "03-30"
             eq_refl eq_refl).
  - split; [reflexivity |].
    exact (proj1 (proj2 (MovieCard_release_year
                           (film None (Some "2021-05-04") None))) eq_refl).
  - split; [left; reflexivity |].
    exact (proj2 (proj2 (MovieCard_release_year (film None (Some "") None)))
             (or_introl eq_refl)).
Defined.

(** ** The client against any environment *)

Section AnyEnvironment.
Context {R : Type} (sdk : Appwrite R).
Variables DATABASE_ID COLLECTION_ID : string.

(** C3. Whatever the environment does, [updateSearchCount] returns
    normally, and with the same value whether its body succeeded or
    threw: an exception of the body is caught and recorded on the
    diagnostic channel, and goes no further. *)
Theorem updateSearchCount_never_throws
    (searchTerm : string) (movie : Movie.t) (w : World R) :
  fst (updateSearchCount DATABASE_ID COLLECTION_ID searchTerm movie w)
  = Return tt
  ∧ snd (updateSearchCount DATABASE_ID COLLECTION_ID searchTerm movie w)
    = match updateSearchCount_try DATABASE_ID COLLECTION_ID searchTerm
              movie w with
      | (Return _, w') => w'
      | (Throw e, w') =>
          {| remote := remote w';
             console :=
               console w' ++ [("Error updating search count:", e)] |}
      end.
Proof.
  unfold updateSearchCount, try_catch.
  destruct (updateSearchCount_try _ _ _ _ w) as [[[]|e] w'];
    split; reflexivity.
Qed.

(** The create path, call by call: an empty listing is followed by one
    [ID.unique()] and one [createDocument] with the five keys. *)
Lemma updateSearchCount_on_empty_listing
    (searchTerm : string) (movie : Movie.t) (w : World R)
    (l : DocumentList) (r1 r2 : R) (i : string) :
  listDocuments DATABASE_ID COLLECTION_ID
    [Query.equal "searchTerm" (VString searchTerm)] (remote w)
  = (Return l, r1) →
  documents l = [] →
  ID_unique r1 = (i, r2) →
  updateSearchCount DATABASE_ID COLLECTION_ID searchTerm movie w
  = settle w (createDocument DATABASE_ID COLLECTION_ID i
                (create_data searchTerm movie) r2).
Proof.
  intros Hlist Hnone Hid.
  unfold updateSearchCount, try_catch, updateSearchCount_try, bind, await,
    lift, settle.
  rewrite Hlist, Hnone. cbn [remote console]. rewrite Hid.
  cbn [remote console].
  now destruct (createDocument _ _ _ _ r2) as [[doc | e] r3].
Qed.

(** The update path, call by call: a listing that starts with [doc] is
    followed by one [updateDocument] on [doc.$id] with the two keys. *)
Lemma updateSearchCount_on_listing
    (searchTerm : string) (movie : Movie.t) (w : World R)
    (l : DocumentList) (r1 : R) (doc : Document.t) (rest : list Document.t) :
  listDocuments DATABASE_ID COLLECTION_ID
    [Query.equal "searchTerm" (VString searchTerm)] (remote w)
  = (Return l, r1) →
  documents l = doc :: rest →
  updateSearchCount DATABASE_ID COLLECTION_ID searchTerm movie w
  = settle w (updateDocument DATABASE_ID COLLECTION_ID (Document._id doc)
                (update_data doc movie) r1).
Proof.
  intros Hlist Hsome.
  unfold updateSearchCount, try_catch, updateSearchCount_try, bind, await,
    settle.
  rewrite Hlist, Hsome. cbn [remote console].
  now destruct (updateDocument _ _ _ _ r1) as [[doc' | e] r2].
Qed.

(** A rejected listing is what the diagnostic channel gets. *)
Lemma updateSearchCount_listing_rejected
    (searchTerm : string) (movie : Movie.t) (w : World R) (e : exn) (r' : R) :
  listDocuments DATABASE_ID COLLECTION_ID
    [Query.equal "searchTerm" (VString searchTerm)] (remote w)
  = (Throw e, r') →
  updateSearchCount DATABASE_ID COLLECTION_ID searchTerm movie w
  = (Return tt,
     {| remote := r';
        console := console w ++ [("Error updating search count:", e)] |}).
Proof.
  intros Hlist.
  unfold updateSearchCount, try_catch, updateSearchCount_try, bind, await.
  now rewrite Hlist.
Qed.

(** The listing of [getTrendingMovies] resolves: its documents are
    mapped one by one. *)
Lemma getTrendingMovies_resolved (w : World R) (l : DocumentList) (r' : R) :
  listDocuments DATABASE_ID COLLECTION_ID
    [Query.orderDesc "count"; Query.limit 5] (remote w) = (Return l, r') →
  getTrendingMovies DATABASE_ID COLLECTION_ID w
  = (Return (map to_trending (documents l)),
     {| remote := r'; console := console w |}).
Proof.
  intros Hlist.
  unfold getTrendingMovies, try_catch, getTrendingMovies_try, bind, await.
  now rewrite Hlist.
Qed.

(** C5. When the listing is rejected, [getTrendingMovies] returns the
    empty list; the exception is recorded on the diagnostic channel and
    goes no further. *)
Theorem getTrendingMovies_rejected (w : World R) (e : exn) (r' : R) :
  listDocuments DATABASE_ID COLLECTION_ID
    [Query.orderDesc "count"; Query.limit 5] (remote w) = (Throw e, r') →
  getTrendingMovies DATABASE_ID COLLECTION_ID w
  = (Return [],
     {| remote := r';
        console := console w ++ [("Error fetching trending movies:", e)] |}).
Proof.
  intros Hlist.
  unfold getTrendingMovies, try_catch, getTrendingMovies_try, bind, await.
  now rewrite Hlist.
Qed.
End AnyEnvironment.

Lemma getTrendingMovies_rejected_witness :
  let w := {| remote := tt; console := [] |} in
  @listDocuments _ Offline.sdk "db" "searches"
    [Query.orderDesc "count"; Query.limit 5] (remote w)
  = (Throw Offline.failure, tt)
  ∧ @getTrendingMovies _ Offline.sdk "db" "searches" w
    = (Return [],
       {| remote := tt;
          console := [("Error fetching trending movies:", Offline.failure)] |}).
Proof.
  split; [reflexivity |].
  exact (getTrendingMovies_rejected Offline.sdk "db" "searches"
           {| remote := tt; console := [] |} Offline.failure tt eq_refl).
Defined.

(** ** The client against the document store *)

Lemma StronglySorted_take {A} (R : relation A) (n : nat) (l : list A) :
  StronglySorted R l → StronglySorted R (take n l).
Proof.
  intros Hl. rewrite <- (take_drop n l) in Hl.
  now apply StronglySorted_app_1_l in Hl.
Qed.

Lemma StronglySorted_weaken {A} (R1 R2 : relation A) (l : list A) :
  (∀ x y, R1 x y → R2 x y) → StronglySorted R1 l → StronglySorted R2 l.
Proof.
  intros HR. induction 1 as [|x l _ IH Hx]; constructor; [exact IH |].
  eapply Forall_impl; [exact Hx | auto].
Qed.

Lemma filter_none {A} (P : A → Prop) `{∀ x, Decision (P x)} (l : list A) :
  (∀ x, x ∈ l → ¬ P x) → filter P l = [].
Proof.
  induction l as [|x l IH]; intros Hl; [reflexivity |].
  rewrite filter_cons_False by (apply Hl; left).
  apply IH. intros y Hy. apply Hl. now right.
Qed.

Lemma filter_fmap_stable {A} (P : A → Prop) `{∀ x, Decision (P x)}
    (f : A → A) (l : list A) :
  (∀ x, P (f x) ↔ P x) → filter P (map f l) = map f (filter P l).
Proof.
  intros Hf. induction l as [|x l IH]; [reflexivity |].
  cbn [map]. destruct (decide (P x)) as [Hx | Hx].
  - rewrite (filter_cons_True P (f x)) by now apply Hf.
    rewrite (filter_cons_True P x) by exact Hx. cbn [map]. now rewrite IH.
  - rewrite (filter_cons_False P (f x)) by now rewrite Hf.
    now rewrite (filter_cons_False P x) by exact Hx.
Qed.

Lemma Forall2_map_self {A} (P : A → A → Prop) (f : A → A) (l : list A) :
  (∀ x, P x (f x)) → Forall2 P l (map f l).
Proof. intros Hf. induction l; cbn [map]; constructor; auto. Qed.

(** Below [2^53] in magnitude a sum of integers is exact. *)
Lemma round_double_exact (z : Z) : Z.abs z ≤ 2 ^ 53 → JS.round_double z = z.
Proof.
  intros Hz. unfold JS.round_double.
  now rewrite (proj2 (Z.leb_le _ _) Hz).
Qed.

Lemma Number_add_exact (a b : Z) :
  - 2 ^ 53 ≤ a + b ≤ 2 ^ 53 → JS.Number_add a b = a + b.
Proof. intros Hab. apply round_double_exact. lia. Qed.

Section StoreFacts.
Variable unique : list string → string.
Hypothesis unique_fresh : ∀ used : list string, unique used ∉ used.
Variables DATABASE_ID COLLECTION_ID : string.

Local Abbreviation sdk := (Store.sdk unique).
Local Abbreviation has_term term :=
  (λ d : Document.t, Document.searchTerm d = term).

Lemma satisfies_equal_searchTerm (term : string) (d : Document.t) :
  Is_true (forallb (Store.satisfies d)
             [Query.equal "searchTerm" (VString term)])
  ↔ Document.searchTerm d = term.
Proof.
  cbn. rewrite andb_true_r. rewrite Is_true_true. apply String.eqb_eq.
Qed.

Lemma list_documents_equal (term : string) (s : Store.t) :
  Store.list_documents [Query.equal "searchTerm" (VString term)] s
  = (Return {| total := length (filter (has_term term) s);
               documents := take Store.default_limit
                              (filter (has_term term) s) |}, s).
Proof.
  unfold Store.list_documents. cbn [forallb Store.valid Store.query_attribute].
  replace (Store.known "searchTerm") with true by reflexivity.
  cbn [andb Store.order_attributes Store.page_size Store.limits omap last
       default Store.sorted].
  rewrite (list_filter_iff _ (has_term term))
    by (intros d; apply satisfies_equal_searchTerm).
  reflexivity.
Qed.

Lemma filter_trending (s : Store.t) :
  filter (λ d, Is_true (forallb (Store.satisfies d)
                          [Query.orderDesc "count"; Query.limit 5])) s = s.
Proof.
  induction s as [|d s IH]; [reflexivity |].
  rewrite filter_cons_True by exact I. now rewrite IH.
Qed.

Lemma list_documents_trending (s : Store.t) :
  Store.list_documents [Query.orderDesc "count"; Query.limit 5] s
  = (Return {| total := length s;
               documents := take 5 (merge_sort (Store.desc ["count"]) s) |},
     s).
Proof.
  unfold Store.list_documents. rewrite filter_trending. reflexivity.
Qed.

Lemma desc_count (d1 d2 : Document.t) :
  Store.desc ["count"] d1 d2 ↔ Document.count d2 ≤ Document.count d1.
Proof.
  unfold Store.desc. cbn.
  destruct (Z.compare_spec (Document.count d1) (Document.count d2));
    cbn; intuition lia.
Qed.

#[local] Instance desc_count_total : Total (Store.desc ["count"]).
Proof. intros d1 d2. rewrite !desc_count. lia. Qed.

#[local] Instance desc_count_transitive : Transitive (Store.desc ["count"]).
Proof. intros d1 d2 d3. rewrite !desc_count. lia. Qed.

(** The create path: no document carries the term. *)
Lemma updateSearchCount_creates
    (term : string) (movie : Movie.t) (w : World Store.t) :
  filter (has_term term) (remote w) = [] →
  updateSearchCount (sdk := sdk) DATABASE_ID COLLECTION_ID term movie w
  = (Return tt,
     {| remote := remote w
                  ++ [counter_document (unique (Store.ids (remote w)))
                        term movie];
        console := console w |}).
Proof.
  intros Hnone.
  rewrite (updateSearchCount_on_empty_listing sdk _ _ term movie w
             {| total := 0; documents := [] |} (remote w) (remote w)
             (unique (Store.ids (remote w)))).
  - cbn [createDocument Store.sdk]. unfold Store.create_document.
    rewrite bool_decide_eq_false_2 by apply unique_fresh.
    reflexivity.
  - cbn [listDocuments Store.sdk].
    now rewrite list_documents_equal, Hnone.
  - reflexivity.
  - reflexivity.
Qed.

(** The update path: the listing starts with [d]. *)
Lemma updateSearchCount_updates
    (term : string) (movie : Movie.t) (w : World Store.t)
    (d : Document.t) (rest : list Document.t) :
  filter (has_term term) (remote w) = d :: rest →
  updateSearchCount (sdk := sdk) DATABASE_ID COLLECTION_ID term movie w
  = (Return tt,
     {| remote := map (λ x, if decide (Document._id x = Document._id d)
                            then Store.merge (update_data d movie) x
                            else x) (remote w);
        console := console w |}).
Proof.
  intros Hsome.
  assert (d ∈ remote w) as Hin.
  { apply (proj1 (list_elem_of_filter (has_term term) (remote w) d)).
    rewrite Hsome. left. }
  rewrite (updateSearchCount_on_listing sdk _ _ term movie w
             {| total := S (length rest);
                documents := take Store.default_limit (d :: rest) |}
             (remote w) d (take 24 rest)).
  - cbn [updateDocument Store.sdk]. unfold Store.update_document.
    destruct (list_find_elem_of (λ x, Document._id x = Document._id d)
                (remote w) d Hin eq_refl) as [[i x] ->].
    reflexivity.
  - cbn [listDocuments Store.sdk].
    now rewrite list_documents_equal, Hsome.
  - reflexivity.
Qed.


(** With unique identifiers the update path rewrites one position. *)
Lemma updateSearchCount_updates_in_place
    (term : string) (movie : Movie.t) (w : World Store.t)
    (d : Document.t) (rest : list Document.t) (i : nat) :
  NoDup (Store.ids (remote w)) →
  remote w !! i = Some d →
  filter (has_term term) (remote w) = d :: rest →
  remote (snd (updateSearchCount (sdk := sdk)
                 DATABASE_ID COLLECTION_ID term movie w))
  = <[i := Store.merge (update_data d movie) d]> (remote w).
Proof.
  intros Hids Hi Hlisted.
  rewrite (updateSearchCount_updates term movie w d rest) by exact Hlisted.
  cbn [snd remote]. apply list_eq. intros j.
  change (map ?f ?l) with (f <$> l). rewrite list_lookup_fmap.
  destruct (decide (i = j)) as [<- | Hij].
  - rewrite list_lookup_insert_eq by now apply lookup_lt_Some in Hi.
    rewrite Hi. cbn. now rewrite decide_True.
  - rewrite list_lookup_insert_ne by exact Hij.
    destruct (remote w !! j) as [x|] eqn:Hj; [|reflexivity].
    cbn. rewrite decide_False; [reflexivity |].
    intros Hsame. apply Hij. symmetry.
    apply (NoDup_lookup (Store.ids (remote w)) j i (Document._id x)).
    + exact Hids.
    + unfold Store.ids. change (map ?f ?l) with (f <$> l).
      now rewrite list_lookup_fmap, Hj.
    + unfold Store.ids. change (map ?f ?l) with (f <$> l).
      now rewrite list_lookup_fmap, Hi, Hsame.
Qed.

(** C1. When no document of the collection carries the search term,
    [updateSearchCount] adds exactly one document: the collection grows
    by one document at its end, under an identifier not in use before,
    and that document holds the search term, count 1, the movie's id as
    [movie_id], the movie's poster URL as [poster_url] and the movie's
    title as [title]. *)
Theorem updateSearchCount_creates_document
    (term : string) (movie : Movie.t) (w : World Store.t) :
  (∀ d, d ∈ remote w → Document.searchTerm d ≠ term) →
  ∃ doc,
    updateSearchCount (sdk := sdk) DATABASE_ID COLLECTION_ID term movie w
    = (Return tt, {| remote := remote w ++ [doc]; console := console w |})
    ∧ (Document._id doc ∉ Store.ids (remote w))
    ∧ Document.searchTerm doc = term
    ∧ Document.count doc = 1
    ∧ Document.movie_id doc = Movie.id movie
    ∧ Document.poster_url doc
      = "https://image.tmdb.org/t/p/w500"
        +:+ JS.ToString (Movie.poster_path movie)
    ∧ Document.title doc = Movie.title movie.
Proof.
  intros Hnone.
  exists (counter_document (unique (Store.ids (remote w))) term movie).
  split; [|split; [apply unique_fresh | repeat split]].
  now apply updateSearchCount_creates, filter_none.
Qed.

(** C10. On the create path a movie whose poster path is null is stored
    with the poster URL ["https://image.tmdb.org/t/p/w500null"]: the null
    goes through the template literal, whereas the card of the same movie
    shows the placeholder. *)
Theorem updateSearchCount_null_poster
    (term : string) (movie : Movie.t) (w : World Store.t) :
  Movie.poster_path movie = None →
  (∀ d, d ∈ remote w → Document.searchTerm d ≠ term) →
  Data.poster_url (create_data term movie)
  = Some "https://image.tmdb.org/t/p/w500null"
  ∧ (∃ doc,
       updateSearchCount (sdk := sdk) DATABASE_ID COLLECTION_ID term movie w
       = (Return tt, {| remote := remote w ++ [doc]; console := console w |})
       ∧ Document.poster_url doc = "https://image.tmdb.org/t/p/w500null")
  ∧ rendered_src (MovieCard movie) = Some "/no-movie.png".
Proof.
  intros Hnull Hnone. split; [|split].
  - unfold create_data. cbn. now rewrite Hnull.
  - exists (counter_document (unique (Store.ids (remote w))) term movie).
    split.
    + now apply updateSearchCount_creates, filter_none.
    + cbn. now rewrite Hnull.
  - rewrite rendered_src_MovieCard. unfold MovieCard_src.
    now rewrite Hnull.
Qed.

(** C2, amended. When exactly one document of the collection carries the
    search term and its count is below [2^53] in magnitude,
    [updateSearchCount] raises that document's count by exactly 1 and
    adds no document. *)
Theorem updateSearchCount_increments
    (term : string) (movie : Movie.t) (w : World Store.t) (d : Document.t) :
  filter (has_term term) (remote w) = [d] →
  - 2 ^ 53 ≤ Document.count d < 2 ^ 53 →
  ∃ after,
    updateSearchCount (sdk := sdk) DATABASE_ID COLLECTION_ID term movie w
    = (Return tt, {| remote := after; console := console w |})
    ∧ count_incremented term d (remote w) after.
Proof.
  intros Hone Hcount. eexists. split.
  - now apply updateSearchCount_updates with (d := d) (rest := []).
  - split; [apply length_fmap |].
    exists (Store.merge (update_data d movie) d). split; [|split].
    + rewrite filter_fmap_stable, Hone.
      * cbn [map]. now rewrite decide_True.
      * intros x. destruct (decide _); reflexivity.
    + reflexivity.
    + cbn. apply Number_add_exact. lia.
Qed.

(** C6. On the update path only [count] and [lastSearchedMovie] are
    written, and only on the document the listing put first: the object
    handed to [updateDocument] has no other key, every document keeps its
    identifier, search term, movie id, poster URL and title, and a
    document under another identifier is left as it was. *)
Theorem updateSearchCount_update_frame
    (term : string) (movie : Movie.t) (w : World Store.t)
    (d : Document.t) (rest : list Document.t) :
  filter (has_term term) (remote w) = d :: rest →
  (Data.searchTerm (update_data d movie) = None
   ∧ Data.movie_id (update_data d movie) = None
   ∧ Data.poster_url (update_data d movie) = None
   ∧ Data.title (update_data d movie) = None)
  ∧ ∃ after,
      updateSearchCount (sdk := sdk) DATABASE_ID COLLECTION_ID term movie w
      = (Return tt, {| remote := after; console := console w |})
      ∧ Forall2 (λ x x',
                   Document._id x' = Document._id x
                   ∧ Document.searchTerm x' = Document.searchTerm x
                   ∧ Document.movie_id x' = Document.movie_id x
                   ∧ Document.poster_url x' = Document.poster_url x
                   ∧ Document.title x' = Document.title x
                   ∧ (Document._id x = Document._id d →
                      Document.count x'
                      = JS.Number_add (Document.count d) 1
                      ∧ Document.lastSearchedMovie x' = Some movie)
                   ∧ (Document._id x ≠ Document._id d → x' = x))
                (remote w) after.
Proof.
  intros Hsome. split; [repeat split |].
  eexists. split.
  { now apply updateSearchCount_updates with (d := d) (rest := rest). }
  apply Forall2_map_self. intros x.
  destruct (decide (Document._id x = Document._id d)) as [Hx | Hx];
    repeat split; try reflexivity; intros; congruence.
Qed.

(** C4. Against the document store [getTrendingMovies] returns at most
    five entries in descending order of count; they are the first five
    documents of the collection sorted by descending count, each mapped
    to the display schema with [id] taken from [movie_id] and [count],
    [poster_url], [searchTerm] and [title] copied. *)
Theorem getTrendingMovies_top_five (w : World Store.t) :
  ∃ (ranked : list Document.t) (movies : list TrendingMovies.t),
    getTrendingMovies (sdk := sdk) DATABASE_ID COLLECTION_ID w
    = (Return movies, w)
    ∧ (length movies ≤ 5)%nat
    ∧ StronglySorted
        (λ a b, TrendingMovies.count b ≤ TrendingMovies.count a) movies
    ∧ ranked ≡ₚ remote w
    ∧ StronglySorted
        (λ a b, Document.count b ≤ Document.count a) ranked
    ∧ Forall2 (λ doc m,
                 TrendingMovies.id m = Document.movie_id doc
                 ∧ TrendingMovies.count m = Document.count doc
                 ∧ TrendingMovies.poster_url m = Document.poster_url doc
                 ∧ TrendingMovies.searchTerm m = Document.searchTerm doc
                 ∧ TrendingMovies.title m = Document.title doc)
              (take 5 ranked) movies.
Proof.
  set (ranked := merge_sort (Store.desc ["count"]) (remote w)).
  assert (StronglySorted (λ a b, Document.count b ≤ Document.count a) ranked)
    as Hranked.
  { apply StronglySorted_weaken with (R1 := Store.desc ["count"]).
    - intros x y. apply desc_count.
    - apply StronglySorted_merge_sort; apply _. }
  exists ranked, (map to_trending (take 5 ranked)).
  split; [|split; [|split; [|split; [|split]]]].
  - rewrite (getTrendingMovies_resolved sdk _ _ w
               {| total := length (remote w); documents := take 5 ranked |}
               (remote w)) by apply list_documents_trending.
    now destruct w.
  - rewrite length_map. apply firstn_le_length.
  - apply StronglySorted_fmap with
      (R1 := λ a b, Document.count b ≤ Document.count a).
    + intros x y Hxy. exact Hxy.
    + now apply StronglySorted_take.
  - apply merge_sort_Permutation.
  - exact Hranked.
  - apply Forall2_fmap_r, Forall_Forall2_diag, Forall_forall.
    intros doc _. repeat split.
Qed.
End StoreFacts.

Lemma next_id_fresh (used : list string) : next_id used ∉ used.
Proof. apply infinite_is_fresh. Qed.

Lemma updateSearchCount_creates_document_witness :
  (∀ d, d ∈ remote (world_of [searched 3]) →
        Document.searchTerm d ≠ "inception")
  ∧ ∃ doc,
      updateSearchCount (sdk := Store.sdk next_id) "db" "searches"
        "inception" the_matrix (world_of [searched 3])
      = (Return tt, {| remote := [searched 3] ++ [doc]; console := [] |})
      ∧ (Document._id doc ∉ Store.ids [searched 3])
      ∧ Document.searchTerm doc = "inception"
      ∧ Document.count doc = 1
      ∧ Document.movie_id doc = 603
      ∧ Document.poster_url doc
        = "https://image.tmdb.org/t/p/w500" +:+ "/matrix.jpg"
      ∧ Document.title doc = "The Matrix".
Proof.
  assert (∀ d, d ∈ remote (world_of [searched 3]) →
               Document.searchTerm d ≠ "inception") as Hnone.
  { intros d Hd. apply list_elem_of_singleton in Hd. subst d. discriminate. }
  split; [exact Hnone |].
  exact (updateSearchCount_creates_document next_id next_id_fresh
           "db" "searches" "inception" the_matrix (world_of [searched 3])
           Hnone).
Defined.

Lemma updateSearchCount_null_poster_witness :
  Movie.poster_path the_matrix_without_poster = None
  ∧ (∀ d, d ∈ remote (world_of []) → Document.searchTerm d ≠ "matrix")
  ∧ Data.poster_url (create_data "matrix" the_matrix_without_poster)
    = Some "https://image.tmdb.org/t/p/w500null"
  ∧ (∃ doc,
       updateSearchCount (sdk := Store.sdk next_id) "db" "searches"
         "matrix" the_matrix_without_poster (world_of [])
       = (Return tt, {| remote := [] ++ [doc]; console := [] |})
       ∧ Document.poster_url doc = "https://image.tmdb.org/t/p/w500null")
  ∧ rendered_src (MovieCard the_matrix_without_poster)
    = Some "/no-movie.png".
Proof.
  assert (∀ d, d ∈ remote (world_of []) → Document.searchTerm d ≠ "matrix")
    as Hnone.
  { intros d Hd. inversion Hd. }
  split; [reflexivity |]. split; [exact Hnone |].
  exact (updateSearchCount_null_poster next_id next_id_fresh
           "db" "searches" "matrix" the_matrix_without_poster (world_of [])
           eq_refl Hnone).
Defined.

Lemma updateSearchCount_increments_witness :
  filter (λ x, Document.searchTerm x = "matrix") [searched 41] = [searched 41]
  ∧ - 2 ^ 53 ≤ Document.count (searched 41) < 2 ^ 53
  ∧ ∃ after,
      updateSearchCount (sdk := Store.sdk next_id) "db" "searches"
        "matrix" the_matrix (world_of [searched 41])
      = (Return tt, {| remote := after; console := [] |})
      ∧ count_incremented "matrix" (searched 41) [searched 41] after.
Proof.
  assert (- 2 ^ 53 ≤ Document.count (searched 41) < 2 ^ 53) as Hcount
    by (cbn; lia).
  split; [reflexivity |]. split; [exact Hcount |].
  exact (updateSearchCount_increments next_id "db" "searches" "matrix"
           the_matrix (world_of [searched 41]) (searched 41) eq_refl Hcount).
Defined.

(** C2 as stated fails where a double cannot hold the next integer: a
    document counted [2^53] times keeps that count. *)
Lemma updateSearchCount_increments_counterexample :
  filter (λ x, Document.searchTerm x = "matrix") [searched (2 ^ 53)]
  = [searched (2 ^ 53)]
  ∧ ¬ ∃ after,
        updateSearchCount (sdk := Store.sdk next_id) "db" "searches"
          "matrix" the_matrix (world_of [searched (2 ^ 53)])
        = (Return tt, {| remote := after; console := [] |})
        ∧ count_incremented "matrix" (searched (2 ^ 53))
            [searched (2 ^ 53)] after.
Proof.
  split; [reflexivity |].
  intros (after & Hrun & _ & d' & Hfilter & _ & Hcount).
  vm_compute in Hrun. injection Hrun as <-.
  vm_compute in Hfilter. injection Hfilter as <-.
  vm_compute in Hcount. discriminate.
Qed.

Lemma updateSearchCount_update_frame_witness :
  filter (λ x, Document.searchTerm x = "matrix") [searched 41] = [searched 41]
  ∧ ∃ after,
      updateSearchCount (sdk := Store.sdk next_id) "db" "searches"
        "matrix" the_matrix (world_of [searched 41])
      = (Return tt, {| remote := after; console := [] |})
      ∧ Forall2 (λ x x',
                   Document._id x' = Document._id x
                   ∧ Document.searchTerm x' = Document.searchTerm x
                   ∧ Document.movie_id x' = Document.movie_id x
                   ∧ Document.poster_url x' = Document.poster_url x
                   ∧ Document.title x' = Document.title x
                   ∧ (Document._id x = Document._id (searched 41) →
                      Document.count x'
                      = JS.Number_add (Document.count (searched 41)) 1
                      ∧ Document.lastSearchedMovie x' = Some the_matrix)
                   ∧ (Document._id x ≠ Document._id (searched 41) → x' = x))
                [searched 41] after.
Proof.
  split; [reflexivity |].
  exact (proj2 (updateSearchCount_update_frame next_id "db" "searches"
                  "matrix" the_matrix (world_of [searched 41]) (searched 41)
                  [] eq_refl)).
Defined.

(** ** Decimal numerals and [toFixed] *)

Lemma substring_prefix (a b : string) :
  substring 0 (String.length a) (a +:+ b) = a.
Proof.
  induction a as [|c a IH]; string_simpl; simpl.
  - now destruct b.
  - now rewrite IH.
Qed.

Lemma substring_whole (b : string) : substring 0 (String.length b) b = b.
Proof. induction b as [|c b IH]; simpl; [reflexivity | now rewrite IH]. Qed.

Lemma substring_suffix (a b : string) :
  substring (String.length a) (String.length b) (a +:+ b) = b.
Proof.
  induction a as [|c a IH]; string_simpl; simpl; [apply substring_whole | exact IH].
Qed.

(** Fuel beyond the number of digits changes nothing. *)
Lemma decimal_go_enough (f g : nat) (n : N) :
  (n < 10 ^ N.of_nat (S f))%N → (n < 10 ^ N.of_nat (S g))%N →
  JS.decimal_go (S f) n = JS.decimal_go (S g) n.
Proof.
  revert g n. induction f as [|f IH]; intros g n Hf Hg.
  - change (10 ^ N.of_nat 1)%N with 10%N in Hf.
    cbn [JS.decimal_go]. now rewrite (proj2 (N.ltb_lt n 10%N) Hf).
  - cbn [JS.decimal_go]. destruct (N.ltb_spec n 10%N) as [Hn | Hn];
      [reflexivity |].
    assert (n / 10 < 10 ^ N.of_nat (S f))%N as Hf'.
    { apply N.Div0.div_lt_upper_bound.
      rewrite Nat2N.inj_succ, N.pow_succ_r' in Hf. exact Hf. }
    destruct g as [|g].
    { change (10 ^ N.of_nat 1)%N with 10%N in Hg. lia. }
    assert (n / 10 < 10 ^ N.of_nat (S g))%N as Hg'.
    { apply N.Div0.div_lt_upper_bound.
      rewrite Nat2N.inj_succ, N.pow_succ_r' in Hg. exact Hg. }
    f_equal. change (JS.decimal_go (S f) (n / 10)
                     = JS.decimal_go (S g) (n / 10)).
    now apply IH.
Qed.

Lemma decimal_fuel (n : N) : (n < 10 ^ N.of_nat (S (N.to_nat (N.log2 n))))%N.
Proof.
  rewrite Nat2N.inj_succ, N2Nat.id.
  destruct (N.eq_dec n 0%N) as [-> | Hn]; [reflexivity |].
  apply N.lt_le_trans with (2 ^ N.succ (N.log2 n))%N.
  - apply N.log2_spec. lia.
  - apply N.pow_le_mono_l. lia.
Qed.

Lemma decimal_small (n : N) :
  (n < 10)%N → JS.decimal n = String (JS.digit n) "".
Proof.
  intros Hn. unfold JS.decimal. cbn [JS.decimal_go].
  rewrite (proj2 (N.ltb_lt n 10%N) Hn), N.mod_small by exact Hn. reflexivity.
Qed.

Lemma decimal_step (n : N) :
  (10 ≤ n)%N →
  JS.decimal n = JS.decimal (n / 10) +:+ String (JS.digit (n mod 10)) "".
Proof.
  intros Hn. unfold JS.decimal at 1.
  pose proof (decimal_fuel n) as Hfuel.
  destruct (N.to_nat (N.log2 n)) as [|f] eqn:Hf.
  { change (10 ^ N.of_nat 1)%N with 10%N in Hfuel. lia. }
  cbn [JS.decimal_go]. destruct (N.ltb_spec n 10%N) as [? | _]; [lia |].
  f_equal. change (JS.decimal_go (S f) (n / 10) = JS.decimal (n / 10)).
  apply decimal_go_enough; [|apply decimal_fuel].
  apply N.Div0.div_lt_upper_bound.
  rewrite Nat2N.inj_succ, N.pow_succ_r' in Hfuel. exact Hfuel.
Qed.

Lemma decimal_nonempty (n : N) : (1 ≤ String.length (JS.decimal n))%nat.
Proof.
  destruct (N.lt_ge_cases n 10%N) as [Hn | Hn].
  - rewrite decimal_small by exact Hn. simpl. lia.
  - rewrite decimal_step, length_append by exact Hn. simpl. lia.
Qed.

(** The numeral [toFixed(1)] puts after the sign, for the rounded tenths
    [n]. *)
Lemma tenths_numeral (n : N) :
  (let m := if (n =? 0)%N then "0" else JS.decimal n in
   let k := String.length m in
   let m := if (k <=? 1)%nat then JS.zeros (1 + 1 - k) +:+ m else m in
   let k := String.length m in
   substring 0 (k - 1) m +:+ "." +:+ substring (k - 1) 1 m)
  = JS.decimal (n / 10) +:+ "." +:+ String (JS.digit (n mod 10)) "".
Proof.
  assert ((if (n =? 0)%N then "0" else JS.decimal n) = JS.decimal n) as ->.
  { destruct (N.eqb_spec n 0%N) as [-> | _]; reflexivity. }
  destruct (N.lt_ge_cases n 10%N) as [Hn | Hn].
  - rewrite decimal_small, N.div_small, N.mod_small by exact Hn. reflexivity.
  - rewrite (decimal_step n Hn).
    set (a := JS.decimal (n / 10)). set (c := String (JS.digit (n mod 10)) "").
    pose proof (decimal_nonempty (n / 10)) as Ha. fold a in Ha.
    cbv zeta. rewrite length_append.
    change (String.length c) with 1%nat.
    destruct (Nat.leb_spec (String.length a + 1) 1) as [? | _]; [lia |].
    rewrite length_append. change (String.length c) with 1%nat.
    replace (String.length a + 1 - 1)%nat with (String.length a) by lia.
    rewrite substring_prefix.
    change 1%nat with (String.length c) at 1.
    now rewrite substring_suffix.
Qed.

Lemma toFixed_one_decimal (q : Q) :
  (Qabs q < JS.Q10 21)%Q → one_decimal q (JS.Number_toFixed (JS.Finite q) 1).
Proof.
  intros Hq.
  exists (Z.to_N (Qfloor (Qabs q * JS.Q10 1 + (1 # 2)))). split.
  - unfold JS.Number_toFixed.
    destruct (Qle_bool (JS.Q10 21) (Qabs q)) eqn:Hbig.
    { apply Qle_bool_iff in Hbig. now apply Qle_not_lt in Hbig. }
    f_equal. apply tenths_numeral.
  - pose proof (Qabs_nonneg q) as Hx.
    set (x := Qabs q) in *. change (JS.Q10 1) with (10 # 1)%Q.
    set (F := Qfloor (x * (10 # 1) + (1 # 2))).
    pose proof (Qfloor_le (x * (10 # 1) + (1 # 2))) as Hlo.
    pose proof (Qlt_floor (x * (10 # 1) + (1 # 2))) as Hhi.
    fold F in Hlo, Hhi. rewrite inject_Z_plus in Hhi.
    assert (0 ≤ F) as HF.
    { change 0 with (Qfloor 0). apply Qfloor_resp_le. lra. }
    rewrite Z2N.id by exact HF.
    apply Qabs_Qle_condition. change (inject_Z 1) with 1%Q in Hhi.
    clear HF Hq. clearbody F. clearbody x.
    generalize dependent (inject_Z F). intros y Hlo Hhi.
    unfold Qdiv. change (/ 10)%Q with (1 # 10)%Q.
    split; lra.
Qed.

(** C7, amended. A movie whose rating is absent or zero is shown with
    ["N/A"]; a movie whose rating is a finite nonzero number below
    [10^21] in magnitude is shown with that rating rounded to one decimal
    place. *)
Theorem MovieCard_rating_shown (movie : Movie.t) :
  (Movie.vote_average movie = None →
   rendered_rating (MovieCard movie) = Some "N/A")
  ∧ (∀ q, Movie.vote_average movie = Some (JS.Finite q) → (q == 0)%Q →
          rendered_rating (MovieCard movie) = Some "N/A")
  ∧ (∀ q, Movie.vote_average movie = Some (JS.Finite q) → ¬ (q == 0)%Q →
          (Qabs q < inject_Z (10 ^ 21))%Q →
          ∃ s, rendered_rating (MovieCard movie) = Some s
               ∧ one_decimal q s).
Proof.
  rewrite rendered_rating_MovieCard. unfold MovieCard_rating.
  split; [|split].
  - intros ->. reflexivity.
  - intros q -> Hzero. cbn [JS.Number_truthy].
    now rewrite (Qeq_eq_bool _ _ Hzero).
  - intros q -> Hnonzero Hsmall. cbn [JS.Number_truthy].
    destruct (Qeq_bool q 0) eqn:Hq.
    { now apply Qeq_bool_eq in Hq. }
    cbn [negb]. eexists. split; [reflexivity |].
    now apply toFixed_one_decimal.
Qed.

Lemma MovieCard_rating_shown_witness :
  (Movie.vote_average (film None None None) = None
   ∧ rendered_rating (MovieCard (film None None None)) = Some "N/A")
  ∧ (Movie.vote_average (film None None (Some (JS.Finite 0)))
     = Some (JS.Finite 0)
     ∧ (0 == 0)%Q
     ∧ rendered_rating (MovieCard (film None None (Some (JS.Finite 0))))
       = Some "N/A")
  ∧ (Movie.vote_average the_matrix = Some (JS.Finite (82 # 10))
     ∧ ¬ (82 # 10 == 0)%Q
     ∧ (Qabs (82 # 10) < inject_Z (10 ^ 21))%Q
     ∧ ∃ s, rendered_rating (MovieCard the_matrix) = Some s
            ∧ one_decimal (82 # 10) s).
Proof.
  split; [|split].
  - split; [reflexivity |].
    exact (proj1 (MovieCard_rating_shown (film None None None)) eq_refl).
  - split; [reflexivity |]. split; [reflexivity |].
    exact (proj1 (proj2 (MovieCard_rating_shown
                           (film None None (Some (JS.Finite 0)))))
             0%Q eq_refl eq_refl).
  - assert (¬ (82 # 10 == 0)%Q) as Hnonzero by discriminate.
    assert (Qabs (82 # 10) < inject_Z (10 ^ 21))%Q as Hsmall by reflexivity.
    split; [reflexivity |]. split; [exact Hnonzero |].
    split; [exact Hsmall |].
    exact (proj2 (proj2 (MovieCard_rating_shown the_matrix))
             (82 # 10)%Q eq_refl Hnonzero Hsmall).
Defined.

(** C7 as stated fails from [10^21] on, where [toFixed] gives up the
    fixed notation: the card shows ["1e+21"], which is no numeral with
    one decimal place. *)
Lemma MovieCard_rating_counterexample :
  let rating := inject_Z (10 ^ 21) in
  let movie := film None None (Some (JS.Finite rating)) in
  ¬ (rating == 0)%Q
  ∧ rendered_rating (MovieCard movie) = Some "1e+21"
  ∧ ¬ ∃ s, rendered_rating (MovieCard movie) = Some s ∧ one_decimal rating s.
Proof.
  cbv zeta. split; [discriminate |].
  assert (rendered_rating
            (MovieCard (film None None
                          (Some (JS.Finite (inject_Z (10 ^ 21))))))
          = Some "1e+21") as Hshown by (vm_compute; reflexivity).
  split; [exact Hshown |].
  rewrite Hshown. intros (s & [= <-] & n & Hs & _).
  change "1e+21" with ("1e+" +:+ "21") in Hs.
  change (if Qle_bool 0 (inject_Z (10 ^ 21)) then "" else "-")
    with "" in Hs.
  rewrite append_nil_l in Hs.
  apply append_tail_inj in Hs; [discriminate | reflexivity].
Qed.

(** ** More on the client against any environment *)

Section AnyEnvironmentMore.
Context {R : Type} (sdk : Appwrite R).
Variables DATABASE_ID COLLECTION_ID : string.

(** X6. Whatever the environment does, [getTrendingMovies] returns
    normally: with one entry per document of the listing, in the
    listing's order, when the listing resolves (the client itself
    neither limits nor sorts), and with the empty list when it is
    rejected. *)
Theorem getTrendingMovies_never_throws (w : World R) :
  fst (getTrendingMovies DATABASE_ID COLLECTION_ID w)
  = Return
      match fst (listDocuments DATABASE_ID COLLECTION_ID
                   [Query.orderDesc "count"; Query.limit 5] (remote w)) with
      | Return l => map to_trending (documents l)
      | Throw _ => []
      end.
Proof.
  unfold getTrendingMovies, try_catch, getTrendingMovies_try, bind, await.
  now destruct (listDocuments _ _ _ (remote w)) as [[l | e] r].
Qed.

(** The two halves of [updateSearchCount] make up the whole. *)
Lemma updateSearchCount_resumed
    (searchTerm : string) (movie : Movie.t) (w : World R) :
  updateSearchCount DATABASE_ID COLLECTION_ID searchTerm movie w
  = let (listed, w1) :=
      updateSearchCount_listing DATABASE_ID COLLECTION_ID searchTerm w in
    updateSearchCount_resume DATABASE_ID COLLECTION_ID searchTerm movie
      listed w1.
Proof.
  unfold updateSearchCount, updateSearchCount_try, updateSearchCount_listing,
    updateSearchCount_resume, try_catch, bind, await.
  now destruct (listDocuments _ _ _ (remote w)) as [[l | e] r].
Qed.

(** Recording the calls changes neither the outcome, nor the
    environment, nor the diagnostic channel. *)
Lemma traced_updateSearchCount
    (searchTerm : string) (movie : Movie.t) (w : World (R * list call)) :
  let plain := updateSearchCount (sdk := sdk) DATABASE_ID COLLECTION_ID
                 searchTerm movie
                 {| remote := fst (remote w); console := console w |} in
  let traced := updateSearchCount (sdk := Traced.sdk sdk)
                  DATABASE_ID COLLECTION_ID searchTerm movie w in
  fst traced = fst plain
  ∧ fst (remote (snd traced)) = remote (snd plain)
  ∧ console (snd traced) = console (snd plain).
Proof.
  cbv zeta.
  unfold updateSearchCount, try_catch, updateSearchCount_try, bind, await,
    lift, ret, console_error.
  cbn [listDocuments updateDocument createDocument ID_unique Traced.sdk
       remote console fst snd].
  destruct (listDocuments _ _ _ (fst (remote w))) as [[l | e] r1];
    cbn [remote console fst snd]; [|now repeat split].
  destruct (documents l) as [|doc rest]; cbn [remote console fst snd].
  - destruct (ID_unique r1) as [i r2]; cbn [remote console fst snd].
    destruct (createDocument _ _ i _ r2) as [[d | e] r3];
      cbn [remote console fst snd]; now repeat split.
  - destruct (updateDocument _ _ _ _ r1) as [[d | e] r2];
      cbn [remote console fst snd]; now repeat split.
Qed.

(** X7. The calls [updateSearchCount] makes, in any environment: first
    one listing by the search term; then nothing if the listing was
    rejected, one [updateDocument] on the first listed document with the
    two keys if it listed any, and otherwise one [ID.unique] and one
    [createDocument] with the five keys.  Never a second write, never a
    retry, and the identifiers of the database and the collection are
    the configured ones in each call. *)
Theorem updateSearchCount_calls
    (searchTerm : string) (movie : Movie.t) (w : World (R * list call)) :
  snd (remote (snd (updateSearchCount (sdk := Traced.sdk sdk)
                      DATABASE_ID COLLECTION_ID searchTerm movie w)))
  = snd (remote w)
    ++ ListDocuments DATABASE_ID COLLECTION_ID
         [Query.equal "searchTerm" (VString searchTerm)]
       :: match listDocuments DATABASE_ID COLLECTION_ID
                  [Query.equal "searchTerm" (VString searchTerm)]
                  (fst (remote w)) with
          | (Throw _, _) => []
          | (Return l, r1) =>
              match documents l with
              | doc :: _ =>
                  [UpdateDocument DATABASE_ID COLLECTION_ID
                     (Document._id doc) (update_data doc movie)]
              | [] =>
                  [Unique;
                   CreateDocument DATABASE_ID COLLECTION_ID
                     (fst (ID_unique r1)) (create_data searchTerm movie)]
              end
          end.
Proof.
  unfold updateSearchCount, try_catch, updateSearchCount_try, bind, await,
    lift, ret, console_error.
  cbn [listDocuments updateDocument createDocument ID_unique Traced.sdk
       remote console fst snd].
  destruct (listDocuments _ _ _ (fst (remote w))) as [[l | e] r1];
    cbn [remote console fst snd]; [|reflexivity].
  destruct (documents l) as [|doc rest]; cbn [remote console fst snd].
  - destruct (ID_unique r1) as [i r2]; cbn [remote console fst snd].
    destruct (createDocument _ _ i _ r2) as [[d | e] r3];
      cbn [remote console fst snd]; now rewrite <- !app_assoc.
  - destruct (updateDocument _ _ _ _ r1) as [[d | e] r2];
      cbn [remote console fst snd]; now rewrite <- !app_assoc.
Qed.

(** X8. [getTrendingMovies] makes exactly one call in any environment:
    the listing ordered by descending count and limited to five.  It
    never writes. *)
Theorem getTrendingMovies_calls (w : World (R * list call)) :
  snd (remote (snd (getTrendingMovies (sdk := Traced.sdk sdk)
                      DATABASE_ID COLLECTION_ID w)))
  = snd (remote w)
    ++ [ListDocuments DATABASE_ID COLLECTION_ID
          [Query.orderDesc "count"; Query.limit 5]].
Proof.
  unfold getTrendingMovies, try_catch, getTrendingMovies_try, bind, await,
    ret, console_error.
  cbn [listDocuments Traced.sdk remote console fst snd].
  now destruct (listDocuments _ _ _ (fst (remote w))) as [[l | e] r1].
Qed.
End AnyEnvironmentMore.

(** Above [2^53] in magnitude what [round_double] gives is even. *)
Lemma round_double_even (z : Z) :
  2 ^ 53 < Z.abs z → Z.even (JS.round_double z) = true.
Proof.
  intros Hz. unfold JS.round_double.
  destruct (Z.leb_spec (Z.abs z) (2 ^ 53)) as [? | _]; [lia |].
  cbv zeta. set (e := Z.log2 (Z.abs z) - 52).
  assert (1 ≤ e) as He.
  { unfold e. assert (53 ≤ Z.log2 (Z.abs z)); [|lia].
    change 53 with (Z.log2 (2 ^ 53)). apply Z.log2_le_mono. lia. }
  assert (Z.even (2 ^ e) = true) as Heven.
  { replace e with (Z.succ (e - 1)) by lia.
    rewrite Z.pow_succ_r by lia. now rewrite Z.even_mul. }
  rewrite !Z.even_mul, Heven. now rewrite !orb_true_r.
Qed.

(** X21. The bound [2^53] on the count is sharp: from there on an even
    count (a double holds no odd integer that large) is never raised by
    exactly 1; the update path sends an even count. *)
Theorem update_data_count_inexact (doc : Document.t) (movie : Movie.t) :
  2 ^ 53 ≤ Document.count doc →
  Z.even (Document.count doc) = true →
  Data.count (update_data doc movie) ≠ Some (Document.count doc + 1).
Proof.
  intros Hbig Heven [= Hsame].
  assert (Z.even (Document.count doc + 1) = true) as Hodd.
  { rewrite <- Hsame. apply round_double_even. lia. }
  rewrite Z.add_1_r, Z.even_succ, <- Z.negb_even, Heven in Hodd.
  discriminate.
Qed.

Lemma update_data_count_inexact_witness :
  2 ^ 53 ≤ Document.count (searched (2 ^ 53))
  ∧ Z.even (Document.count (searched (2 ^ 53))) = true
  ∧ Data.count (update_data (searched (2 ^ 53)) the_matrix)
    ≠ Some (Document.count (searched (2 ^ 53)) + 1).
Proof.
  assert (2 ^ 53 ≤ Document.count (searched (2 ^ 53))) as Hbig
    by (cbn; lia).
  split; [exact Hbig |]. split; [reflexivity |].
  exact (update_data_count_inexact (searched (2 ^ 53)) the_matrix
           Hbig eq_refl).
Defined.

(** ** More on the client against the document store *)

Lemma ids_injective (s : Store.t) (x y : Document.t) :
  NoDup (Store.ids s) → x ∈ s → y ∈ s →
  Document._id x = Document._id y → x = y.
Proof.
  intros Hids Hx Hy Hsame.
  apply list_elem_of_lookup in Hx as [i Hi].
  apply list_elem_of_lookup in Hy as [j Hj].
  assert (i = j) as ->.
  { apply (NoDup_lookup (Store.ids s) i j (Document._id x)).
    - exact Hids.
    - unfold Store.ids. change (map ?f ?l) with (f <$> l).
      now rewrite list_lookup_fmap, Hi.
    - unfold Store.ids. change (map ?f ?l) with (f <$> l).
      now rewrite list_lookup_fmap, Hj, Hsame. }
  congruence.
Qed.

Lemma filter_fmap_fixed {A} (P : A → Prop) `{∀ x, Decision (P x)}
    (f : A → A) (l : list A) :
  (∀ x, x ∈ l → (P (f x) ↔ P x)) → (∀ x, x ∈ l → P x → f x = x) →
  filter P (map f l) = filter P l.
Proof.
  induction l as [|x l IH]; intros Hiff Hfix; [reflexivity |].
  cbn [map]. destruct (decide (P x)) as [Hx | Hx].
  - rewrite (filter_cons_True P (f x)) by (apply Hiff; [left | exact Hx]).
    rewrite (filter_cons_True P x) by exact Hx.
    rewrite (Hfix x) by (exact Hx || left).
    f_equal. apply IH; intros y Hy; [apply Hiff | apply Hfix]; now right.
  - rewrite (filter_cons_False P (f x)).
    2:{ intros Hfx. apply Hx. apply Hiff; [left | exact Hfx]. }
    rewrite (filter_cons_False P x) by exact Hx.
    apply IH; intros y Hy; [apply Hiff | apply Hfix]; now right.
Qed.

Lemma map_fixed {A} (f : A → A) (l : list A) :
  (∀ x, x ∈ l → f x = x) → map f l = l.
Proof.
  induction l as [|x l IH]; intros Hfix; [reflexivity |].
  cbn [map]. rewrite Hfix by left. f_equal. apply IH.
  intros y Hy. apply Hfix. now right.
Qed.

Section StoreRuns.
Variable unique : list string → string.
Hypothesis unique_fresh : ∀ used : list string, unique used ∉ used.
Variables DATABASE_ID COLLECTION_ID : string.

Local Abbreviation run term movie w :=
  (updateSearchCount (sdk := Store.sdk unique)
     DATABASE_ID COLLECTION_ID term movie w).
Local Abbreviation has_term term :=
  (λ d : Document.t, Document.searchTerm d = term).
Local Abbreviation touch d movie :=
  (λ x : Document.t,
     if decide (Document._id x = Document._id d)
     then Store.merge (update_data d movie) x else x).

Lemma touch_searchTerm (d : Document.t) (movie : Movie.t) (x : Document.t) :
  Document.searchTerm (touch d movie x) = Document.searchTerm x.
Proof.
  cbn beta. now destruct (decide (Document._id x = Document._id d)).
Qed.

Lemma touch_id (d : Document.t) (movie : Movie.t) (x : Document.t) :
  Document._id (touch d movie x) = Document._id x.
Proof.
  cbn beta. now destruct (decide (Document._id x = Document._id d)).
Qed.

Lemma filter_term_touch (term : string) (d : Document.t) (movie : Movie.t)
    (s : Store.t) :
  filter (has_term term) (map (touch d movie) s)
  = map (touch d movie) (filter (has_term term) s).
Proof.
  apply filter_fmap_stable. intros x. now rewrite touch_searchTerm.
Qed.

(** X10. A run keeps the collection at one document per search term at
    most, when no other writer comes in between: a document is created
    only for a term that has none, and an update changes no search
    term. *)
Theorem updateSearchCount_keeps_one_per_term
    (term : string) (movie : Movie.t) (w : World Store.t) :
  one_per_term (remote w) → one_per_term (remote (snd (run term movie w))).
Proof.
  intros Hone t.
  destruct (filter (has_term term) (remote w)) as [|d rest] eqn:Hlisted.
  - rewrite (updateSearchCount_creates unique unique_fresh) by exact Hlisted.
    cbn [snd remote]. rewrite filter_app, length_app.
    destruct (decide (t = term)) as [-> | Ht].
    + rewrite Hlisted. cbn [length plus]. apply (length_filter _ [_]).
    + rewrite filter_cons_False by (cbn; congruence).
      rewrite filter_nil. cbn [length]. rewrite Nat.add_0_r. apply Hone.
  - rewrite (updateSearchCount_updates unique _ _ term movie w d rest)
      by exact Hlisted.
    cbn [snd remote]. rewrite filter_term_touch, length_map. apply Hone.
Qed.

(** X11. With unique identifiers, a run for one term leaves the
    documents of every other term exactly as they were. *)
Theorem updateSearchCount_other_terms_untouched
    (term : string) (movie : Movie.t) (w : World Store.t) :
  NoDup (Store.ids (remote w)) →
  filter (λ x, Document.searchTerm x ≠ term) (remote (snd (run term movie w)))
  = filter (λ x, Document.searchTerm x ≠ term) (remote w).
Proof.
  intros Hids.
  destruct (filter (has_term term) (remote w)) as [|d rest] eqn:Hlisted.
  - rewrite (updateSearchCount_creates unique unique_fresh) by exact Hlisted.
    cbn [snd remote]. rewrite filter_app.
    rewrite (filter_cons_False _ (counter_document _ _ _))
      by (cbn; intros Hne; now apply Hne).
    rewrite filter_nil. apply app_nil_r.
  - rewrite (updateSearchCount_updates unique _ _ term movie w d rest)
      by exact Hlisted.
    cbn [snd remote].
    assert (d ∈ remote w ∧ Document.searchTerm d = term) as [Hd Hterm].
    { apply and_comm.
      apply (proj1 (list_elem_of_filter (has_term term) (remote w) d)).
      rewrite Hlisted. left. }
    apply filter_fmap_fixed.
    + intros x _. now rewrite touch_searchTerm.
    + intros x Hx Hother. cbn beta.
      destruct (decide (Document._id x = Document._id d)) as [Hsame | _];
        [|reflexivity].
      apply (ids_injective (remote w) x d Hids Hx Hd) in Hsame. congruence.
Qed.

(** X12. When several documents carry the term (what unawaited calls can
    leave behind), a run updates the first one listed and leaves the
    others of the term as they were. *)
Theorem updateSearchCount_first_listed_only
    (term : string) (movie : Movie.t) (w : World Store.t)
    (d : Document.t) (rest : list Document.t) :
  NoDup (Store.ids (remote w)) →
  filter (has_term term) (remote w) = d :: rest →
  filter (has_term term) (remote (snd (run term movie w)))
  = Store.merge (update_data d movie) d :: rest.
Proof.
  intros Hids Hlisted.
  rewrite (updateSearchCount_updates unique _ _ term movie w d rest)
    by exact Hlisted.
  cbn [snd remote]. rewrite filter_term_touch, Hlisted. cbn [map].
  rewrite decide_True by reflexivity. f_equal.
  assert (NoDup (Store.ids (d :: rest))) as Hlistedids.
  { rewrite <- Hlisted. unfold Store.ids.
    apply (sublist_NoDup _ (Store.ids (remote w))); [exact Hids |].
    apply (fmap_sublist Document._id), sublist_filter. }
  apply NoDup_cons in Hlistedids as [Hfirst _].
  apply map_fixed. intros x Hx.
  cbn beta.
      destruct (decide (Document._id x = Document._id d)) as [Hsame | _];
        [|reflexivity].
  exfalso. apply Hfirst. rewrite <- Hsame.
  unfold Store.ids. change (map ?f ?l) with (f <$> l).
  now apply list_elem_of_fmap_2.
Qed.

(** X13. Against a database that answers, [updateSearchCount] records
    nothing on the diagnostic channel. *)
Theorem updateSearchCount_logs_nothing
    (term : string) (movie : Movie.t) (w : World Store.t) :
  console (snd (run term movie w)) = console w.
Proof.
  destruct (filter (has_term term) (remote w)) as [|d rest] eqn:Hlisted.
  - now rewrite (updateSearchCount_creates unique unique_fresh)
      by exact Hlisted.
  - now rewrite (updateSearchCount_updates unique _ _ term movie w d rest)
      by exact Hlisted.
Qed.
End StoreRuns.

Section StoreSessions.
Variable unique : list string → string.
Hypothesis unique_fresh : ∀ used : list string, unique used ∉ used.
Variables DATABASE_ID COLLECTION_ID : string.

Local Abbreviation run term movie w :=
  (updateSearchCount (sdk := Store.sdk unique)
     DATABASE_ID COLLECTION_ID term movie w).
Local Abbreviation session l w :=
  (search_session (sdk := Store.sdk unique)
     DATABASE_ID COLLECTION_ID l w).
Local Abbreviation trending w :=
  (getTrendingMovies (sdk := Store.sdk unique)
     DATABASE_ID COLLECTION_ID w).
Local Abbreviation has_term term :=
  (λ d : Document.t, Document.searchTerm d = term).
Local Abbreviation touch d movie :=
  (λ x : Document.t,
     if decide (Document._id x = Document._id d)
     then Store.merge (update_data d movie) x else x).

(** X14. Searches for a new term, awaited one after the other, leave one
    document for the term whose count is the number of searches (below
    [2^53]); the movie id, poster URL and title stay those of the first
    search's movie, and [lastSearchedMovie] is the movie of the last
    search after the first. *)
Theorem search_session_counts
    (term : string) (first : Movie.t) (others : list Movie.t)
    (w : World Store.t) :
  (∀ d, d ∈ remote w → Document.searchTerm d ≠ term) →
  Z.of_nat (length others) < 2 ^ 53 →
  ∃ doc,
    filter (has_term term)
      (remote (session ((term, first) :: map (pair term) others) w))
    = [doc]
    ∧ Document.count doc = 1 + Z.of_nat (length others)
    ∧ Document.movie_id doc = Movie.id first
    ∧ Document.poster_url doc
      = poster_base +:+ JS.ToString (Movie.poster_path first)
    ∧ Document.title doc = Movie.title first
    ∧ Document.lastSearchedMovie doc = last others
    ∧ length (remote (session ((term, first) :: map (pair term) others) w))
      = S (length (remote w))
    ∧ console (session ((term, first) :: map (pair term) others) w)
      = console w.
Proof.
  intros Hnone. induction others as [|movie others IH] using rev_ind;
    intros Hbound.
  - exists (counter_document (unique (Store.ids (remote w))) term first).
    unfold search_session. cbn [map fold_left fst snd].
    rewrite (updateSearchCount_creates unique unique_fresh)
      by now apply filter_none.
    cbn [snd remote console]. rewrite filter_app, length_app.
    rewrite (filter_none (has_term term) (remote w)) by exact Hnone.
    rewrite filter_cons_True by reflexivity. rewrite filter_nil.
    cbn [length]. repeat split. lia.
  - rewrite length_app in Hbound. cbn [length] in Hbound.
    destruct IH as (doc & Hlisted & Hcount & Hid & Hposter & Htitle & _
                    & Hlength & Hconsole); [lia |].
    rewrite map_app. cbn [map]. rewrite app_comm_cons.
    unfold search_session in *. rewrite fold_left_app.
    cbn [fold_left fst snd].
    set (w' := fold_left _ _ w) in *.
    rewrite (updateSearchCount_updates unique _ _ term movie w' doc [])
      by exact Hlisted.
    cbn [snd remote console].
    exists (Store.merge (update_data doc movie) doc).
    split; [|split; [|split; [|split; [|split; [|split; [|split]]]]]].
    + rewrite filter_fmap_stable, Hlisted.
      * cbn [map]. now rewrite decide_True.
      * intros x. cbn beta.
        now destruct (decide (Document._id x = Document._id doc)).
    + cbn. rewrite Hcount, length_app. cbn [length].
      rewrite Number_add_exact by lia. lia.
    + exact Hid.
    + exact Hposter.
    + exact Htitle.
    + cbn. now rewrite last_snoc.
    + now rewrite length_map.
    + exact Hconsole.
Qed.

(** The listing of [getTrendingMovies] against the store. *)
Lemma trending_ranked (w : World Store.t) :
  fst (trending w)
  = Return (map to_trending
              (take 5 (merge_sort (Store.desc ["count"]) (remote w)))).
Proof.
  now rewrite (getTrendingMovies_resolved (Store.sdk unique) _ _ w
                 {| total := length (remote w);
                    documents :=
                      take 5 (merge_sort (Store.desc ["count"]) (remote w)) |}
                 (remote w)) by apply list_documents_trending.
Qed.

Lemma trending_small (w : World Store.t) :
  (length (remote w) ≤ 5)%nat →
  ∃ movies,
    fst (trending w) = Return movies
    ∧ movies ≡ₚ map to_trending (remote w).
Proof.
  intros Hsmall. eexists. split; [apply trending_ranked |].
  rewrite take_ge.
  - apply (fmap_Permutation to_trending), merge_sort_Permutation.
  - now rewrite merge_sort_Permutation.
Qed.

(** X15. [getTrendingMovies] returns five entries, or as many as the
    collection holds, and no document it leaves out has a higher count
    than one it returns. *)
Theorem getTrendingMovies_ranking (w : World Store.t) :
  ∃ returned omitted : list Document.t,
    fst (trending w) = Return (map to_trending returned)
    ∧ returned ++ omitted ≡ₚ remote w
    ∧ length returned = (5 `min` length (remote w))%nat
    ∧ ∀ d r, d ∈ returned → r ∈ omitted →
             Document.count r ≤ Document.count d.
Proof.
  set (ranked := merge_sort (Store.desc ["count"]) (remote w)).
  exists (take 5 ranked), (drop 5 ranked).
  split; [apply trending_ranked |]. split; [|split].
  - rewrite take_drop. apply merge_sort_Permutation.
  - rewrite length_take. unfold ranked.
    now rewrite merge_sort_Permutation.
  - intros d r Hd Hr. apply desc_count.
    apply (StronglySorted_app_1_elem_of _ (take 5 ranked) (drop 5 ranked));
      [|exact Hd | exact Hr].
    rewrite take_drop.
    apply StronglySorted_merge_sort;
      [apply desc_count_transitive | apply desc_count_total].
Qed.

(** X16. A search shows up in the trending list at once when the
    collection held fewer than five documents before it. *)
Theorem search_then_trending
    (term : string) (movie : Movie.t) (w : World Store.t) :
  (length (remote w) < 5)%nat →
  ∃ movies entry,
    fst (trending (snd (run term movie w))) = Return movies
    ∧ entry ∈ movies
    ∧ TrendingMovies.searchTerm entry = term.
Proof.
  intros Hsmall.
  assert (∃ doc, doc ∈ remote (snd (run term movie w))
                 ∧ Document.searchTerm doc = term
                 ∧ (length (remote (snd (run term movie w))) ≤ 5)%nat)
    as (doc & Hdoc & Hterm & Hlength).
  { destruct (filter (has_term term) (remote w)) as [|d rest] eqn:Hlisted.
    - rewrite (updateSearchCount_creates unique unique_fresh)
        by exact Hlisted.
      cbn [snd remote]. eexists. split; [|split].
      + apply elem_of_app. right. left.
      + reflexivity.
      + rewrite length_app. cbn [length]. lia.
    - rewrite (updateSearchCount_updates unique _ _ term movie w d rest)
        by exact Hlisted.
      cbn [snd remote].
      assert (d ∈ remote w ∧ Document.searchTerm d = term) as [Hd Hterm].
      { apply and_comm.
        apply (proj1 (list_elem_of_filter (has_term term) (remote w) d)).
        rewrite Hlisted. left. }
      exists (Store.merge (update_data d movie) d). split; [|split].
      + change (map ?f ?l) with (f <$> l). apply list_elem_of_fmap.
        exists d. split; [|exact Hd]. cbn beta. now rewrite decide_True.
      + exact Hterm.
      + rewrite length_map. lia. }
  destruct (trending_small _ Hlength) as (movies & Hmovies & Hperm).
  exists movies, (to_trending doc). split; [exact Hmovies |]. split.
  - rewrite Hperm. change (map ?f ?l) with (f <$> l).
    now apply list_elem_of_fmap_2.
  - exact Hterm.
Qed.

(** X19. The trending list is kept per search term, not per movie: the
    same movie found under two new terms is listed twice, once for each
    term (in a collection small enough to be listed whole). *)
Theorem trending_lists_movie_per_term
    (termA termB : string) (movie : Movie.t) (w : World Store.t) :
  termA ≠ termB →
  (∀ d, d ∈ remote w →
        Document.searchTerm d ≠ termA ∧ Document.searchTerm d ≠ termB) →
  (length (remote w) ≤ 3)%nat →
  ∃ movies entryA entryB,
    fst (trending (session [(termA, movie); (termB, movie)] w))
    = Return movies
    ∧ entryA ∈ movies ∧ entryB ∈ movies
    ∧ TrendingMovies.searchTerm entryA = termA
    ∧ TrendingMovies.searchTerm entryB = termB
    ∧ TrendingMovies.id entryA = Movie.id movie
    ∧ TrendingMovies.id entryB = Movie.id movie.
Proof.
  intros Hterms Hnone Hsmall.
  set (docA := counter_document (unique (Store.ids (remote w))) termA movie).
  set (docB := counter_document
                 (unique (Store.ids (remote w ++ [docA]))) termB movie).
  assert (remote (session [(termA, movie); (termB, movie)] w)
          = (remote w ++ [docA]) ++ [docB]) as Hafter.
  { unfold search_session. cbn [fold_left fst snd].
    rewrite (updateSearchCount_creates unique unique_fresh _ _ termA movie w).
    2:{ apply filter_none. intros d Hd. exact (proj1 (Hnone d Hd)). }
    cbn [snd].
    rewrite (updateSearchCount_creates unique unique_fresh); [reflexivity |].
    cbn [remote]. apply filter_none. intros d Hd.
    apply elem_of_app in Hd as [Hd | Hd]; [exact (proj2 (Hnone d Hd)) |].
    apply list_elem_of_singleton in Hd. subst d. exact Hterms. }
  destruct (trending_small
              (session [(termA, movie); (termB, movie)] w))
    as (movies & Hmovies & Hperm).
  { rewrite Hafter, !length_app. cbn [length]. lia. }
  exists movies, (to_trending docA), (to_trending docB).
  split; [exact Hmovies |]. rewrite Hperm, Hafter.
  change (map ?f ?l) with (f <$> l). repeat split.
  - apply list_elem_of_fmap_2, elem_of_app. left.
    apply elem_of_app. right. left.
  - apply list_elem_of_fmap_2, elem_of_app. right. left.
Qed.

(** X20. A movie without a poster, found under a new term, comes back
    from [getTrendingMovies] with the poster URL
    ["https://image.tmdb.org/t/p/w500null"]: what the create path stored
    is what the trending list hands to the display. *)
Theorem null_poster_reaches_trending
    (term : string) (movie : Movie.t) (w : World Store.t) :
  Movie.poster_path movie = None →
  (∀ d, d ∈ remote w → Document.searchTerm d ≠ term) →
  (length (remote w) < 5)%nat →
  ∃ movies entry,
    fst (trending (snd (run term movie w))) = Return movies
    ∧ entry ∈ movies
    ∧ TrendingMovies.searchTerm entry = term
    ∧ TrendingMovies.poster_url entry
      = "https://image.tmdb.org/t/p/w500null".
Proof.
  intros Hnull Hnone Hsmall.
  set (doc := counter_document (unique (Store.ids (remote w))) term movie).
  assert (remote (snd (run term movie w)) = remote w ++ [doc]) as Hafter.
  { now rewrite (updateSearchCount_creates unique unique_fresh)
      by now apply filter_none. }
  destruct (trending_small (snd (run term movie w)))
    as (movies & Hmovies & Hperm).
  { rewrite Hafter, length_app. cbn [length]. lia. }
  exists movies, (to_trending doc).
  split; [exact Hmovies |]. rewrite Hperm, Hafter.
  change (map ?f ?l) with (f <$> l). split; [|split].
  - apply list_elem_of_fmap_2, elem_of_app. right. left.
  - reflexivity.
  - cbn. now rewrite Hnull.
Qed.
End StoreSessions.

Section StoreInterleaved.
Variable unique : list string → string.
Hypothesis unique_fresh : ∀ used : list string, unique used ∉ used.
Variables DATABASE_ID COLLECTION_ID : string.

Local Abbreviation listing term w :=
  (updateSearchCount_listing (sdk := Store.sdk unique)
     DATABASE_ID COLLECTION_ID term w).
Local Abbreviation resume term movie listed w :=
  (updateSearchCount_resume (sdk := Store.sdk unique)
     DATABASE_ID COLLECTION_ID term movie listed w).
Local Abbreviation both termA movieA termB movieB w :=
  (interleaved (sdk := Store.sdk unique)
     DATABASE_ID COLLECTION_ID termA movieA termB movieB w).
Local Abbreviation session l w :=
  (search_session (sdk := Store.sdk unique)
     DATABASE_ID COLLECTION_ID l w).
Local Abbreviation has_term term :=
  (λ d : Document.t, Document.searchTerm d = term).
Local Abbreviation touch d movie :=
  (λ x : Document.t,
     if decide (Document._id x = Document._id d)
     then Store.merge (update_data d movie) x else x).

Lemma store_listing (term : string) (w : World Store.t) :
  listing term w
  = (Return {| total := length (filter (has_term term) (remote w));
               documents := take Store.default_limit
                              (filter (has_term term) (remote w)) |},
     w).
Proof.
  unfold updateSearchCount_listing, await. cbn [listDocuments Store.sdk].
  rewrite list_documents_equal. now destruct w.
Qed.

Lemma resume_creates (term : string) (movie : Movie.t) (l : DocumentList)
    (w : World Store.t) :
  documents l = [] →
  resume term movie (Return l) w
  = (Return tt,
     {| remote := remote w
                  ++ [counter_document (unique (Store.ids (remote w)))
                        term movie];
        console := console w |}).
Proof.
  intros Hnone.
  unfold updateSearchCount_resume, try_catch, bind, await, lift.
  rewrite Hnone.
  cbn [createDocument ID_unique Store.sdk remote console].
  unfold Store.create_document.
  rewrite bool_decide_eq_false_2 by apply unique_fresh.
  reflexivity.
Qed.

Lemma resume_updates (term : string) (movie : Movie.t) (l : DocumentList)
    (w : World Store.t) (d : Document.t) (rest : list Document.t) :
  documents l = d :: rest →
  Document._id d ∈ Store.ids (remote w) →
  resume term movie (Return l) w
  = (Return tt,
     {| remote := map (touch d movie) (remote w); console := console w |}).
Proof.
  intros Hsome Hid.
  unfold updateSearchCount_resume, try_catch, bind, await.
  rewrite Hsome. cbn [updateDocument Store.sdk remote console].
  unfold Store.update_document.
  unfold Store.ids in Hid. change (map ?f ?l) with (f <$> l) in Hid.
  apply list_elem_of_fmap in Hid as (x & Hx & Hin).
  destruct (list_find_elem_of (λ y, Document._id y = Document._id d)
              (remote w) x Hin (eq_sym Hx)) as [[i y] ->].
  reflexivity.
Qed.

(** X17. Two calls for the same new term that are not awaited one after
    the other can both find the listing empty: each then creates a
    document, and the collection ends with two documents for the term,
    both with count 1, under different identifiers. *)
Theorem interleaved_searches_duplicate
    (term : string) (movieA movieB : Movie.t) (w : World Store.t) :
  (∀ d, d ∈ remote w → Document.searchTerm d ≠ term) →
  ∃ docA docB,
    remote (both term movieA term movieB w) = remote w ++ [docA; docB]
    ∧ filter (has_term term) (remote (both term movieA term movieB w))
      = [docA; docB]
    ∧ Document.count docA = 1 ∧ Document.count docB = 1
    ∧ Document.movie_id docA = Movie.id movieA
    ∧ Document.movie_id docB = Movie.id movieB
    ∧ Document._id docA ≠ Document._id docB
    ∧ console (both term movieA term movieB w) = console w.
Proof.
  intros Hnone.
  pose proof (filter_none (has_term term) (remote w) Hnone) as Hlisted.
  set (docA := counter_document (unique (Store.ids (remote w))) term movieA).
  set (docB := counter_document
                 (unique (Store.ids (remote w ++ [docA]))) term movieB).
  assert (both term movieA term movieB w
          = {| remote := (remote w ++ [docA]) ++ [docB];
               console := console w |}) as ->.
  { unfold interleaved. rewrite !store_listing, Hlisted.
    cbn [take Store.default_limit].
    rewrite resume_creates by reflexivity. cbn [snd].
    now rewrite resume_creates by reflexivity. }
  cbn [remote console]. exists docA, docB.
  split; [now rewrite <- app_assoc |]. split; [|repeat split].
  - rewrite <- app_assoc, filter_app, Hlisted. cbn [app].
    rewrite filter_cons_True by reflexivity.
    rewrite filter_cons_True by reflexivity. now rewrite filter_nil.
  - intros Hsame. apply (unique_fresh (Store.ids (remote w ++ [docA]))).
    change (Document._id docB ∈ Store.ids (remote w ++ [docA])).
    rewrite <- Hsame. unfold Store.ids. rewrite map_app.
    apply elem_of_app. right. left.
Qed.

(** X18. Two calls for a term that has one document, not awaited one
    after the other, can both read the same count: the second write then
    repeats the first, and the count rises by 1 where the same two
    searches awaited in turn raise it by 2. *)
Theorem interleaved_searches_lose_update
    (term : string) (movieA movieB : Movie.t) (w : World Store.t)
    (d : Document.t) :
  filter (has_term term) (remote w) = [d] →
  - 2 ^ 53 ≤ Document.count d < 2 ^ 53 - 1 →
  (∃ d',
     filter (has_term term) (remote (both term movieA term movieB w)) = [d']
     ∧ Document.count d' = Document.count d + 1
     ∧ Document.lastSearchedMovie d' = Some movieB)
  ∧ (∃ d',
       filter (has_term term)
         (remote (session [(term, movieA); (term, movieB)] w)) = [d']
       ∧ Document.count d' = Document.count d + 2
       ∧ Document.lastSearchedMovie d' = Some movieB).
Proof.
  intros Hlisted Hcount.
  assert (d ∈ remote w) as Hd.
  { apply (proj1 (list_elem_of_filter (has_term term) (remote w) d)).
    rewrite Hlisted. left. }
  assert (∀ (x : Document.t) (m : Movie.t) (s : Store.t),
            filter (has_term term) s = [x] →
            filter (has_term term) (map (touch d m) s)
            = [touch d m x]) as Htouched.
  { intros x m s Hs. rewrite filter_fmap_stable, Hs; [reflexivity |].
    intros y. cbn beta.
    now destruct (decide (Document._id y = Document._id d)). }
  set (d1 := Store.merge (update_data d movieA) d).
  assert (touch d movieA d = d1) as Hd1
    by (cbn beta; now rewrite decide_True).
  assert (∀ m, touch d m d1 = Store.merge (update_data d m) d1) as Hd2
    by (intros m; cbn beta; now rewrite decide_True).
  split.
  - exists (Store.merge (update_data d movieB) d1). split; [|split].
    + unfold interleaved. rewrite !store_listing, Hlisted.
      cbn [take Store.default_limit].
      rewrite (resume_updates term movieA _ w d []); [|reflexivity |].
      2:{ unfold Store.ids. change (map ?f ?l) with (f <$> l).
          now apply list_elem_of_fmap_2. }
      cbn [snd].
      rewrite (resume_updates term movieB _ _ d []); [|reflexivity |].
      2:{ cbn [remote]. unfold Store.ids. rewrite map_map.
          change (map ?f ?l) with (f <$> l). apply list_elem_of_fmap.
          exists d. split; [|exact Hd]. now rewrite Hd1. }
      cbn [snd remote].
      rewrite (Htouched _ _ _ (Htouched _ _ _ Hlisted)).
      now rewrite Hd1, Hd2.
    + cbn. apply Number_add_exact. lia.
    + reflexivity.
  - exists (Store.merge (update_data d1 movieB) d1). split; [|split].
    + unfold search_session. cbn [fold_left fst snd].
      rewrite (updateSearchCount_updates unique _ _ term movieA w d [])
        by exact Hlisted.
      cbn [snd].
      rewrite (updateSearchCount_updates unique _ _ term movieB _ d1 []).
      2:{ cbn [remote]. now rewrite (Htouched _ _ _ Hlisted), Hd1. }
      cbn [snd remote].
      rewrite filter_fmap_stable.
      * rewrite (Htouched _ _ _ Hlisted), Hd1. cbn [map].
        now rewrite decide_True.
      * intros y. cbn beta.
        now destruct (decide (Document._id y = Document._id d1)).
    + cbn. rewrite (Number_add_exact (Document.count d)) by lia.
      rewrite Number_add_exact by lia. lia.
    + reflexivity.
Qed.
End StoreInterleaved.

(** ** More on the movie card *)

(** X1. The card shows the placeholder image exactly when the poster path
    is null or the empty string; any other path gives an image source
    of its own. *)
Theorem MovieCard_placeholder_iff (movie : Movie.t) :
  rendered_src (MovieCard movie) = Some "/no-movie.png"
  ↔ Movie.poster_path movie = None ∨ Movie.poster_path movie = Some "".
Proof.
  rewrite rendered_src_MovieCard. unfold MovieCard_src.
  destruct (Movie.poster_path movie) as [[|c p]|]; cbn [JS.truthy
    JS.String_truthy JS.ToString]; split; auto.
  - unfold poster_base. string_simpl. discriminate.
  - intros [? | ?]; discriminate.
Qed.

(** X2. The image source tells the poster path: two movies with
    non-empty poster paths are rendered with the same source only if
    the paths are the same. *)
Theorem MovieCard_src_determines_poster
    (m1 m2 : Movie.t) (p1 p2 : string) :
  Movie.poster_path m1 = Some p1 → p1 ≠ "" →
  Movie.poster_path m2 = Some p2 → p2 ≠ "" →
  rendered_src (MovieCard m1) = rendered_src (MovieCard m2) →
  p1 = p2.
Proof.
  rewrite !rendered_src_MovieCard. unfold MovieCard_src.
  intros -> Hp1 -> Hp2.
  destruct p1 as [|c1 p1]; [congruence |].
  destruct p2 as [|c2 p2]; [congruence |].
  cbn [JS.truthy JS.String_truthy JS.ToString]. intros Hsame.
  injection Hsame as -> ->. reflexivity.
Qed.

Lemma MovieCard_src_determines_poster_witness :
  Movie.poster_path the_matrix = Some "/matrix.jpg"
  ∧ "/matrix.jpg" ≠ ""
  ∧ Movie.poster_path (film (Some "/matrix.jpg") None None)
    = Some "/matrix.jpg"
  ∧ rendered_src (MovieCard the_matrix)
    = rendered_src (MovieCard (film (Some "/matrix.jpg") None None))
  ∧ "/matrix.jpg" = "/matrix.jpg".
Proof.
  assert ("/matrix.jpg" ≠ "") as Hp by discriminate.
  split; [reflexivity |]. split; [exact Hp |]. split; [reflexivity |].
  split; [reflexivity |].
  exact (MovieCard_src_determines_poster the_matrix
           (film (Some "/matrix.jpg") None None) "/matrix.jpg" "/matrix.jpg"
           eq_refl Hp eq_refl Hp eq_refl).
Defined.

Lemma digit_not_A (d : N) : (d < 10)%N → JS.digit d ≠ "A"%char.
Proof.
  intros Hd.
  assert (d = 0 ∨ d = 1 ∨ d = 2 ∨ d = 3 ∨ d = 4 ∨ d = 5 ∨ d = 6 ∨ d = 7
          ∨ d = 8 ∨ d = 9)%N as Hcases by lia.
  repeat destruct Hcases as [-> | Hcases]; try discriminate.
  subst d. discriminate.
Qed.

Lemma decimal_last (n : N) :
  ∃ pre, JS.decimal n = pre +:+ String (JS.digit (n mod 10)) "".
Proof.
  destruct (N.lt_ge_cases n 10%N) as [Hn | Hn].
  - exists "". rewrite decimal_small, N.mod_small by exact Hn. reflexivity.
  - eexists. now apply decimal_step.
Qed.

Lemma not_NA (pre : string) (d : N) :
  (d < 10)%N → pre +:+ String (JS.digit d) "" ≠ "N/A".
Proof.
  intros Hd Hsame. change "N/A" with ("N/" +:+ "A") in Hsame.
  apply append_tail_inj in Hsame; [|reflexivity].
  injection Hsame as Hsame. now apply digit_not_A in Hsame.
Qed.

(** A number that counts as present is never written as ["N/A"]. *)
Lemma toFixed_not_NA (v : JS.number) :
  JS.Number_truthy v = true → JS.Number_toFixed v 1 ≠ "N/A".
Proof.
  destruct v as [| | |q]; cbn [JS.Number_truthy JS.Number_toFixed];
    try discriminate.
  intros _. cbv zeta.
  destruct (Qle_bool (JS.Q10 21) (Qabs q)).
  - unfold JS.Number_toString_large.
    destruct (JS.shortest _ _ _ _) as [[n k] s].
    destruct (decimal_last (Z.to_N (n - 1))) as [pre ->].
    rewrite <- !append_assoc. apply not_NA.
    now apply N.mod_lt.
  - rewrite tenths_numeral. rewrite <- !append_assoc. apply not_NA.
    now apply N.mod_lt.
Qed.

(** X3. The card shows ["N/A"] for the rating exactly when the rating is
    absent, zero or NaN: no rating that counts as present is ever shown
    as ["N/A"]. *)
Theorem MovieCard_rating_NA_iff (movie : Movie.t) :
  rendered_rating (MovieCard movie) = Some "N/A"
  ↔ Movie.vote_average movie = None
    ∨ Movie.vote_average movie = Some JS.NaN
    ∨ ∃ q, Movie.vote_average movie = Some (JS.Finite q) ∧ (q == 0)%Q.
Proof.
  rewrite rendered_rating_MovieCard. unfold MovieCard_rating.
  destruct (Movie.vote_average movie) as [v|]; [|now split; auto].
  destruct (JS.Number_truthy v) eqn:Hv.
  - split.
    + intros [= Hshown]. now apply toFixed_not_NA in Hshown.
    + intros [? | [[= ->] | (q & [= ->] & Hzero)]]; try discriminate.
      cbn in Hv. now rewrite (Qeq_eq_bool _ _ Hzero) in Hv.
  - split; [|reflexivity]. intros _. right.
    destruct v as [| | |q]; try discriminate; [now left | right].
    exists q. split; [reflexivity |]. cbn in Hv.
    apply Qeq_bool_eq. now destruct (Qeq_bool q 0).
Qed.

Lemma Qfloor_unique (x : Q) (z : Z) :
  (inject_Z z <= x)%Q → (x < inject_Z z + 1)%Q → Qfloor x = z.
Proof.
  intros Hlo Hhi. apply Z.le_antisymm.
  - apply Z.lt_succ_r. rewrite Zlt_Qlt.
    apply Qle_lt_trans with x; [apply Qfloor_le |].
    unfold Z.succ. now rewrite inject_Z_plus.
  - rewrite <- (Qfloor_Z z). now apply Qfloor_resp_le.
Qed.

(** X4. A positive rating below [10^21] is shown as the tenth nearest to
    it, the larger one when it lies halfway: a rating within half a
    tenth of [n] tenths is shown as the numeral of [n] tenths. *)
Theorem MovieCard_rating_nearest_tenth
    (movie : Movie.t) (q : Q) (n : N) :
  Movie.vote_average movie = Some (JS.Finite q) →
  (0 < q)%Q → (q < inject_Z (10 ^ 21))%Q →
  (inject_Z (Z.of_N n) / 10 - (1 # 20) <= q)%Q →
  (q < inject_Z (Z.of_N n) / 10 + (1 # 20))%Q →
  rendered_rating (MovieCard movie) = Some (tenths n).
Proof.
  intros Hvote Hpos Hsmall Hlo Hhi.
  rewrite rendered_rating_MovieCard. unfold MovieCard_rating.
  rewrite Hvote. cbn [JS.Number_truthy].
  destruct (Qeq_bool q 0) eqn:Hzero.
  { apply Qeq_bool_eq in Hzero. rewrite Hzero in Hpos. discriminate. }
  cbn [negb]. f_equal. unfold JS.Number_toFixed.
  assert (Qabs q = q) as ->.
  { destruct q as [a b]. unfold Qlt in Hpos. cbn in *.
    now rewrite Z.abs_eq by lia. }
  rewrite (proj2 (Qle_bool_iff 0 q)) by now apply Qlt_le_weak.
  destruct (Qle_bool (JS.Q10 21) q) eqn:Hbig.
  { apply Qle_bool_iff in Hbig. now apply Qle_not_lt in Hbig. }
  rewrite (Qfloor_unique _ (Z.of_N n)).
  - rewrite N2Z.id. rewrite append_nil_l. apply tenths_numeral.
  - change (JS.Q10 1) with (10 # 1)%Q.
    generalize dependent (inject_Z (Z.of_N n)). intros y Hlo Hhi.
    unfold Qdiv in *. change (/ 10)%Q with (1 # 10)%Q in *. lra.
  - change (JS.Q10 1) with (10 # 1)%Q.
    generalize dependent (inject_Z (Z.of_N n)). intros y Hlo Hhi.
    unfold Qdiv in *. change (/ 10)%Q with (1 # 10)%Q in *. lra.
Qed.

Lemma MovieCard_rating_nearest_tenth_witness :
  Movie.vote_average inception = Some (JS.Finite (8369 # 1000))
  ∧ (0 < 8369 # 1000)%Q
  ∧ (8369 # 1000 < inject_Z (10 ^ 21))%Q
  ∧ (inject_Z (Z.of_N 84) / 10 - (1 # 20) <= 8369 # 1000)%Q
  ∧ (8369 # 1000 < inject_Z (Z.of_N 84) / 10 + (1 # 20))%Q
  ∧ rendered_rating (MovieCard inception) = Some "8.4".
Proof.
  assert (0 < 8369 # 1000)%Q as H1 by reflexivity.
  assert (8369 # 1000 < inject_Z (10 ^ 21))%Q as H2 by reflexivity.
  assert (inject_Z (Z.of_N 84) / 10 - (1 # 20) <= 8369 # 1000)%Q as H3
    by (vm_compute; discriminate).
  assert (8369 # 1000 < inject_Z (Z.of_N 84) / 10 + (1 # 20))%Q as H4
    by reflexivity.
  repeat (split; [assumption || reflexivity |]).
  exact (MovieCard_rating_nearest_tenth inception (8369 # 1000) 84
           eq_refl H1 H2 H3 H4).
Defined.

(** The first piece of a split has no separator in it, and the string
    is that piece alone or that piece, a separator and more. *)
Lemma String_split_head (sep : ascii) (s : string) :
  ∃ y pieces,
    JS.String_split sep s = y :: pieces
    ∧ JS.String_includes sep y = false
    ∧ (s = y ∨ ∃ rest, s = y +:+ String sep rest).
Proof.
  induction s as [|c s (y & pieces & Hsplit & Hy & Hshape)].
  - exists "", []. repeat split. now left.
  - cbn [JS.String_split]. destruct (Ascii.eqb c sep) eqn:Hc.
    + apply Ascii.eqb_eq in Hc as ->.
      exists "", (JS.String_split sep s). repeat split. right. now exists s.
    + rewrite Hsplit. exists (String c y), pieces.
      cbn [JS.String_includes]. rewrite Hc, Hy. repeat split.
      destruct Hshape as [-> | [rest ->]]; [now left | right].
      now exists rest.
Qed.

(** X5. For a non-empty release date the year shown is the longest
    prefix of the date without a dash: the date is that prefix alone, or
    goes on with a dash.  In particular the year never contains a dash,
    and a date without one is shown whole. *)
Theorem MovieCard_year_prefix (movie : Movie.t) (d : string) :
  Movie.release_date movie = Some d → d ≠ "" →
  ∃ y,
    rendered_year (MovieCard movie) = Some y
    ∧ JS.String_includes "-" y = false
    ∧ (d = y ∨ ∃ rest, d = y +:+ "-" +:+ rest).
Proof.
  intros Hdate Hd.
  rewrite rendered_year_MovieCard. unfold MovieCard_year. rewrite Hdate.
  destruct (String_split_head "-" d) as (y & pieces & Hsplit & Hy & Hshape).
  exists y. rewrite Hsplit. destruct d; [congruence |].
  cbn [JS.String_truthy]. repeat split; assumption.
Qed.

Lemma MovieCard_year_prefix_witness :
  Movie.release_date inception = Some "2010-07-15"
  ∧ "2010-07-15" ≠ ""
  ∧ ∃ y,
      rendered_year (MovieCard inception) = Some y
      ∧ JS.String_includes "-" y = false
      ∧ ("2010-07-15" = y ∨ ∃ rest, "2010-07-15" = y +:+ "-" +:+ rest).
Proof.
  assert ("2010-07-15" ≠ "") as Hd by discriminate.
  split; [reflexivity |]. split; [exact Hd |].
  exact (MovieCard_year_prefix inception "2010-07-15" eq_refl Hd).
Defined.

(** ** The added properties on sample data *)

Lemma two_terms_unique_ids :
  NoDup (Store.ids [counter "a1" "matrix" 3; counter "b2" "inception" 5]).
Proof.
  cbn. apply NoDup_cons. split; [|apply NoDup_singleton].
  intros Hin. apply list_elem_of_singleton in Hin. discriminate.
Qed.

Lemma duplicates_unique_ids :
  NoDup (Store.ids [counter "a1" "matrix" 3; counter "b2" "matrix" 1]).
Proof.
  cbn. apply NoDup_cons. split; [|apply NoDup_singleton].
  intros Hin. apply list_elem_of_singleton in Hin. discriminate.
Qed.

Lemma single_one_per_term : one_per_term [searched 3].
Proof. intros term. apply (length_filter _ [_]). Qed.


Lemma updateSearchCount_keeps_one_per_term_witness :
  one_per_term (remote (world_of [searched 3]))
  ∧ one_per_term
      (remote (snd (updateSearchCount (sdk := Store.sdk next_id)
                      "db" "searches" "inception" inception
                      (world_of [searched 3])))).
Proof.
  split; [exact single_one_per_term |].
  exact (updateSearchCount_keeps_one_per_term next_id next_id_fresh
           "db" "searches" "inception" inception (world_of [searched 3])
           single_one_per_term).
Defined.

Lemma updateSearchCount_other_terms_untouched_witness :
  let w := world_of [counter "a1" "matrix" 3; counter "b2" "inception" 5] in
  NoDup (Store.ids (remote w))
  ∧ filter (λ x, Document.searchTerm x ≠ "matrix")
      (remote (snd (updateSearchCount (sdk := Store.sdk next_id)
                      "db" "searches" "matrix" inception w)))
    = filter (λ x, Document.searchTerm x ≠ "matrix") (remote w).
Proof.
  split; [exact two_terms_unique_ids |].
  exact (updateSearchCount_other_terms_untouched next_id next_id_fresh
           "db" "searches" "matrix" inception
           (world_of [counter "a1" "matrix" 3; counter "b2" "inception" 5])
           two_terms_unique_ids).
Defined.

Lemma updateSearchCount_first_listed_only_witness :
  let w := world_of [counter "a1" "matrix" 3; counter "b2" "matrix" 1] in
  NoDup (Store.ids (remote w))
  ∧ filter (λ d, Document.searchTerm d = "matrix") (remote w)
    = [counter "a1" "matrix" 3; counter "b2" "matrix" 1]
  ∧ filter (λ d, Document.searchTerm d = "matrix")
      (remote (snd (updateSearchCount (sdk := Store.sdk next_id)
                      "db" "searches" "matrix" inception w)))
    = [Store.merge (update_data (counter "a1" "matrix" 3) inception)
         (counter "a1" "matrix" 3);
       counter "b2" "matrix" 1].
Proof.
  split; [exact duplicates_unique_ids |]. split; [reflexivity |].
  exact (updateSearchCount_first_listed_only next_id
           "db" "searches" "matrix" inception
           (world_of [counter "a1" "matrix" 3; counter "b2" "matrix" 1])
           (counter "a1" "matrix" 3) [counter "b2" "matrix" 1]
           duplicates_unique_ids eq_refl).
Defined.

Lemma updateSearchCount_logs_nothing_witness :
  console (snd (updateSearchCount (sdk := Store.sdk next_id)
                  "db" "searches" "matrix" inception
                  (world_of [searched 3])))
  = console (world_of [searched 3]).
Proof.
  exact (updateSearchCount_logs_nothing next_id next_id_fresh
           "db" "searches" "matrix" inception (world_of [searched 3])).
Defined.

Lemma search_session_counts_witness :
  let w := world_of [searched 3] in
  let session :=
    search_session (sdk := Store.sdk next_id) "db" "searches"
      (("inception", inception)
       :: map (pair "inception") [the_matrix; inception]) w in
  (∀ d, d ∈ remote w → Document.searchTerm d ≠ "inception")
  ∧ Z.of_nat (length [the_matrix; inception]) < 2 ^ 53
  ∧ ∃ doc,
      filter (λ d, Document.searchTerm d = "inception") (remote session)
      = [doc]
      ∧ Document.count doc = 1 + Z.of_nat (length [the_matrix; inception])
      ∧ Document.movie_id doc = Movie.id inception
      ∧ Document.poster_url doc
        = poster_base +:+ JS.ToString (Movie.poster_path inception)
      ∧ Document.title doc = Movie.title inception
      ∧ Document.lastSearchedMovie doc = last [the_matrix; inception]
      ∧ length (remote session) = S (length (remote w))
      ∧ console session = console w.
Proof.
  assert (∀ d, d ∈ remote (world_of [searched 3]) →
               Document.searchTerm d ≠ "inception") as Hnone.
  { intros d Hd. apply list_elem_of_singleton in Hd. subst d. discriminate. }
  assert (Z.of_nat (length [the_matrix; inception]) < 2 ^ 53) as Hbound
    by (cbn; lia).
  split; [exact Hnone |]. split; [exact Hbound |].
  exact (search_session_counts next_id next_id_fresh "db" "searches"
           "inception" inception [the_matrix; inception]
           (world_of [searched 3]) Hnone Hbound).
Defined.

Lemma search_then_trending_witness :
  (length (remote (world_of [searched 3])) < 5)%nat
  ∧ ∃ movies entry,
      fst (getTrendingMovies (sdk := Store.sdk next_id) "db" "searches"
             (snd (updateSearchCount (sdk := Store.sdk next_id)
                     "db" "searches" "inception" inception
                     (world_of [searched 3]))))
      = Return movies
      ∧ entry ∈ movies
      ∧ TrendingMovies.searchTerm entry = "inception".
Proof.
  assert (length (remote (world_of [searched 3])) < 5)%nat as Hsmall
    by (cbn; lia).
  split; [exact Hsmall |].
  exact (search_then_trending next_id next_id_fresh "db" "searches"
           "inception" inception (world_of [searched 3]) Hsmall).
Defined.

Lemma interleaved_searches_duplicate_witness :
  let w := world_of [searched 3] in
  let after := interleaved (sdk := Store.sdk next_id) "db" "searches"
                 "inception" inception "inception" the_matrix w in
  (∀ d, d ∈ remote w → Document.searchTerm d ≠ "inception")
  ∧ ∃ docA docB,
      remote after = remote w ++ [docA; docB]
      ∧ filter (λ d, Document.searchTerm d = "inception") (remote after)
        = [docA; docB]
      ∧ Document.count docA = 1 ∧ Document.count docB = 1
      ∧ Document.movie_id docA = Movie.id inception
      ∧ Document.movie_id docB = Movie.id the_matrix
      ∧ Document._id docA ≠ Document._id docB
      ∧ console after = console w.
Proof.
  assert (∀ d, d ∈ remote (world_of [searched 3]) →
               Document.searchTerm d ≠ "inception") as Hnone.
  { intros d Hd. apply list_elem_of_singleton in Hd. subst d. discriminate. }
  split; [exact Hnone |].
  exact (interleaved_searches_duplicate next_id next_id_fresh
           "db" "searches" "inception" inception the_matrix
           (world_of [searched 3]) Hnone).
Defined.

Lemma interleaved_searches_lose_update_witness :
  let w := world_of [searched 3] in
  filter (λ d, Document.searchTerm d = "matrix") (remote w) = [searched 3]
  ∧ - 2 ^ 53 ≤ Document.count (searched 3) < 2 ^ 53 - 1
  ∧ (∃ d',
       filter (λ d, Document.searchTerm d = "matrix")
         (remote (interleaved (sdk := Store.sdk next_id) "db" "searches"
                    "matrix" the_matrix "matrix" inception w)) = [d']
       ∧ Document.count d' = Document.count (searched 3) + 1
       ∧ Document.lastSearchedMovie d' = Some inception)
  ∧ (∃ d',
       filter (λ d, Document.searchTerm d = "matrix")
         (remote (search_session (sdk := Store.sdk next_id) "db" "searches"
                    [("matrix", the_matrix); ("matrix", inception)] w))
       = [d']
       ∧ Document.count d' = Document.count (searched 3) + 2
       ∧ Document.lastSearchedMovie d' = Some inception).
Proof.
  assert (- 2 ^ 53 ≤ Document.count (searched 3) < 2 ^ 53 - 1) as Hcount
    by (cbn; lia).
  split; [reflexivity |]. split; [exact Hcount |].
  exact (interleaved_searches_lose_update next_id "db" "searches" "matrix"
           the_matrix inception (world_of [searched 3]) (searched 3)
           eq_refl Hcount).
Defined.

Lemma trending_lists_movie_per_term_witness :
  let w := world_of [searched 3] in
  "dune" ≠ "arrakis"
  ∧ (∀ d, d ∈ remote w →
          Document.searchTerm d ≠ "dune" ∧ Document.searchTerm d ≠ "arrakis")
  ∧ (length (remote w) ≤ 3)%nat
  ∧ ∃ movies entryA entryB,
      fst (getTrendingMovies (sdk := Store.sdk next_id) "db" "searches"
             (search_session (sdk := Store.sdk next_id) "db" "searches"
                [("dune", inception); ("arrakis", inception)] w))
      = Return movies
      ∧ entryA ∈ movies ∧ entryB ∈ movies
      ∧ TrendingMovies.searchTerm entryA = "dune"
      ∧ TrendingMovies.searchTerm entryB = "arrakis"
      ∧ TrendingMovies.id entryA = Movie.id inception
      ∧ TrendingMovies.id entryB = Movie.id inception.
Proof.
  assert ("dune" ≠ "arrakis") as Hterms by discriminate.
  assert (∀ d, d ∈ remote (world_of [searched 3]) →
               Document.searchTerm d ≠ "dune"
               ∧ Document.searchTerm d ≠ "arrakis") as Hnone.
  { intros d Hd. apply list_elem_of_singleton in Hd. subst d.
    split; discriminate. }
  assert (length (remote (world_of [searched 3])) ≤ 3)%nat as Hsmall
    by (cbn; lia).
  split; [exact Hterms |]. split; [exact Hnone |]. split; [exact Hsmall |].
  exact (trending_lists_movie_per_term next_id next_id_fresh
           "db" "searches" "dune" "arrakis" inception
           (world_of [searched 3]) Hterms Hnone Hsmall).
Defined.

Lemma null_poster_reaches_trending_witness :
  let w := world_of [] in
  Movie.poster_path the_matrix_without_poster = None
  ∧ (∀ d, d ∈ remote w → Document.searchTerm d ≠ "matrix")
  ∧ (length (remote w) < 5)%nat
  ∧ ∃ movies entry,
      fst (getTrendingMovies (sdk := Store.sdk next_id) "db" "searches"
             (snd (updateSearchCount (sdk := Store.sdk next_id)
                     "db" "searches" "matrix" the_matrix_without_poster w)))
      = Return movies
      ∧ entry ∈ movies
      ∧ TrendingMovies.searchTerm entry = "matrix"
      ∧ TrendingMovies.poster_url entry
        = "https://image.tmdb.org/t/p/w500null".
Proof.
  assert (∀ d, d ∈ remote (world_of []) → Document.searchTerm d ≠ "matrix")
    as Hnone.
  { intros d Hd. inversion Hd. }
  assert (length (remote (world_of [])) < 5)%nat as Hsmall by (cbn; lia).
  split; [reflexivity |]. split; [exact Hnone |]. split; [exact Hsmall |].
  exact (null_poster_reaches_trending next_id next_id_fresh
           "db" "searches" "matrix" the_matrix_without_poster (world_of [])
           eq_refl Hnone Hsmall).
Defined.

(** The two schedules of the same two searches, run. *)
Example awaited_and_interleaved :
  let runs schedule :=
    map (λ d, (Document.searchTerm d, Document.count d))
      (remote (schedule (world_of []))) in
  runs (search_session (sdk := Store.sdk next_id) "db" "searches"
          [("dune", inception); ("dune", inception)])
  = [("dune", 2)]
  ∧ runs (interleaved (sdk := Store.sdk next_id) "db" "searches"
            "dune" inception "dune" inception)
    = [("dune", 1); ("dune", 1)].
Proof. vm_compute. split; reflexivity. Qed.
